(** * Transaction synchronisation of eg-main-frame

    A shallow embedding of the server actions [getUserId],
    [storePlaidAccounts], [fetchAndStoreAccounts], [syncTransactions] and
    [applyTransactionUpdates], with the two services they talk to: the
    aggregator client [plaidClient] and the relational store reached
    through the Supabase client.

    The actions are written in a state-and-exception monad over a [World]:
    the state of the aggregator, the session, the database, the answers the
    store is going to give, and the trace of every request that left the
    process.  The aggregator is a parameter (any state machine); the store
    is a model of the contract the specification gives for it.  The [while]
    loop of [syncTransactions] runs on fuel, and running out of fuel is an
    outcome of its own, distinct from returning and from throwing. *)

From Stdlib Require Import List String ZArith Bool Arith Lia.
Import ListNotations.
Open Scope string_scope.
Open Scope list_scope.

Set Implicit Arguments.

(** ** Payloads of the aggregator API *)

Module Plaid.

Record PersonalFinanceCategory := {
  primary : string;
  detailed : string
}.

(** The fields of a [Transaction] that the server actions read.  [amount]
    is a number that is only copied, never computed with. *)
Record Transaction := {
  account_id : string;
  transaction_id : string;
  amount : Z;
  authorized_datetime : option string;
  datetime : option string;
  personal_finance_category : option PersonalFinanceCategory;
  name : string;
  merchant_name : option string;
  payment_channel : string;
  iso_currency_code : option string;
  pending : bool
}.

Record RemovedTransaction := {
  removed_transaction_id : string;
  removed_account_id : string
}.

Record AccountBalance := {
  available : option Z;
  current : option Z;
  balance_iso_currency_code : option string
}.

Record AccountBase := {
  acc_account_id : string;
  balances : AccountBalance;
  acc_name : string;
  official_name : option string;
  type : string;
  subtype : option string
}.

(** [UpdatedItem]: an [Item] viewed with an [institution_name].  The view
    is a cast, so at run time the name may be missing. *)
Record UpdatedItem := {
  item_id : string;
  institution_id : option string;
  institution_name : option string
}.

Record TransactionsSyncRequest := {
  access_token : string;
  cursor : option string
}.

(** [response.data] of [transactionsSync]. *)
Record TransactionsSyncResponse := {
  added : list Transaction;
  modified : list Transaction;
  removed : list RemovedTransaction;
  has_more : bool;
  next_cursor : string
}.

(** [response.data] of [accountsGet]. *)
Record AccountsGetResponse := {
  accounts : list AccountBase;
  item : UpdatedItem
}.

End Plaid.

(** ** Rows of the three collections *)

Module Db.

Record ItemRow := {
  i_user_id : string;
  i_access_token : string;
  i_item_id : string;
  i_institution_id : option string;
  i_institution_name : string;
  i_cursor : option string
}.

Record AccountRow := {
  a_user_id : string;
  a_item_id : string;
  a_account_id : string;
  a_available_balance : option Z;
  a_current_balance : option Z;
  a_currency : option string;
  a_name : string;
  a_official_name : option string;
  a_type : string;
  a_subtype : option string;
  a_institution_id : option string;
  a_institution_name : string
}.

Record TransactionRow := {
  t_user_id : string;
  t_account_id : string;
  t_transaction_id : string;
  t_amount : Z;
  t_authorized_datetime : option string;
  t_datetime : option string;
  t_personal_finance_category_primary : option string;
  t_personal_finance_category_detailed : option string;
  t_name : string;
  t_merchant_name : option string;
  t_payment_channel : string;
  t_currency : option string;
  t_pending : bool
}.

Record Database := {
  items : list ItemRow;
  accounts : list AccountRow;
  transactions : list TransactionRow
}.

End Db.

(** ** Tables

    A table is the list of its rows; [key] is the column of its unique
    index. *)

Section Table.

Variable R : Type.
Variable key : R -> string.

Definition has_key (k : string) (r : R) : bool := String.eqb (key r) k.

Definition keys (t : list R) : list string := map key t.

Definition mem (k : string) (ks : list string) : bool :=
  existsb (String.eqb k) ks.

(** The row a key selects (the first one, should there be several). *)
Definition lookup (k : string) (t : list R) : option R :=
  find (has_key k) t.

(** Modelled from the spec: the storage backend reached through
    [createClient] is not part of the sources.  Section 4.3 gives the
    conflict policy of an upsert, "update-in-place on existing identifier";
    a row whose key is new is inserted. *)
Definition upsert_row (t : list R) (r : R) : list R :=
  if existsb (has_key (key r)) t
  then map (fun x => if has_key (key r) x then r else x) t
  else t ++ [r].

(** Modelled from the spec: [.upsert(rows, { onConflict: key })] of the
    storage backend, which is not part of the sources.  The rows of the
    batch are written in order, so that among rows with one key the last
    wins (section 4.3: "last-write-wins"). *)
Definition upsert (rows : list R) (t : list R) : list R :=
  fold_left upsert_row rows t.

(** Modelled from the spec: [.delete().in(key, ks)] of the storage backend,
    which is not part of the sources; section 4.3: "delete all transaction
    rows whose identifier is in that set". *)
Definition delete_in (ks : list string) (t : list R) : list R :=
  filter (fun r => negb (mem (key r) ks)) t.

(** The row that a batch leaves behind for key [k]: its last row with
    that key. *)
Definition last_with (k : string) (rows : list R) : option R :=
  find (has_key k) (rev rows).

(** What a batch makes of a row that is already there. *)
Definition settle (rows : list R) (x : R) : R :=
  match last_with (key x) rows with
  | Some r => r
  | None => x
  end.

End Table.

(** ** Requests, events and the world *)

Import Plaid Db.

(** A statement sent to the store. *)
Inductive Statement :=
| SelectCursor (itemId : string)
| UpsertTransactions (rows : list TransactionRow)
| DeleteTransactions (ids : list string)
| UpdateCursor (itemId : string) (cursor : option string)
| UpsertAccounts (rows : list AccountRow).

(** Everything that leaves the process, with the answer it got.  An
    aggregator call answers with [inl message] when it throws; a statement
    answers with [Some message] when the store reports an error. *)
Inductive Event :=
| EvTransactionsSync (request : TransactionsSyncRequest)
    (reply : string + TransactionsSyncResponse)
| EvAccountsGet (accessToken : string) (reply : string + AccountsGetResponse)
| EvStore (statement : Statement) (error : option string)
| EvConsoleError (label message : string).

(** The aggregator client, [plaidClient]: a service with a state of its
    own, about which nothing is assumed. *)
Class PlaidApi (Agg : Type) := {
  transactionsSync :
    Agg -> TransactionsSyncRequest -> (string + TransactionsSyncResponse) * Agg;
  accountsGet :
    Agg -> string -> (string + AccountsGetResponse) * Agg
}.

Definition set_cursor (c : option string) (r : ItemRow) : ItemRow :=
  {| i_user_id := i_user_id r;
     i_access_token := i_access_token r;
     i_item_id := i_item_id r;
     i_institution_id := i_institution_id r;
     i_institution_name := i_institution_name r;
     i_cursor := c |}.

(** Modelled from the spec: [.update({ cursor }).eq('item_id', itemId)] of
    the storage backend, which is not part of the sources: the "conditional
    update" of section 6, writing the one column of every matching row. *)
Definition update_cursor (itemId : string) (c : option string)
    (t : list ItemRow) : list ItemRow :=
  map (fun r =>
         if String.eqb (i_item_id r) itemId then set_cursor c r else r) t.

(** What a statement that succeeds does to the database. *)
Definition run_statement (q : Statement) (d : Database) : Database :=
  match q with
  | SelectCursor _ => d
  | UpsertTransactions rows =>
      {| items := items d;
         accounts := Db.accounts d;
         transactions := upsert t_transaction_id rows (transactions d) |}
  | DeleteTransactions ids =>
      {| items := items d;
         accounts := Db.accounts d;
         transactions := delete_in t_transaction_id ids (transactions d) |}
  | UpdateCursor itemId c =>
      {| items := update_cursor itemId c (items d);
         accounts := Db.accounts d;
         transactions := transactions d |}
  | UpsertAccounts rows =>
      {| items := items d;
         accounts := upsert a_account_id rows (Db.accounts d);
         transactions := transactions d |}
  end.

(** [.single()]: the data is there when exactly one row matches. *)
Definition single (A : Type) (rows : list A) : option A :=
  match rows with
  | [r] => Some r
  | _ => None
  end.

(** The data of [.select('cursor').eq('item_id', itemId).single()]. *)
Definition cursor_of_item (itemId : string) (d : Database)
    : option (option string) :=
  single (map i_cursor
            (filter (fun r => String.eqb (i_item_id r) itemId) (items d))).

(** A computation either returns, throws an [Error] with a message, or is
    still running when the fuel of a loop is used up. *)
Inductive Result (A : Type) :=
| Ok (a : A)
| Throw (message : string)
| Diverge.

Arguments Throw {A} message.
Arguments Diverge {A}.

Section Engine.

Context {Agg : Type} {plaidClient : PlaidApi Agg}.

(** - [plaid]: the state of the aggregator;
    - [session]: the user identifier that [supabase.auth.getUser()]
      resolves, [None] when it reports an error or no user;
    - [db]: the three collections;
    - [faults]: the answers the store gives to the coming statements, the
      next one first ([None]: the statement is executed; [Some message]:
      it is refused and changes nothing); once the list is used up every
      statement is executed;
    - [trace]: the events so far, oldest first. *)
Record World := {
  plaid : Agg;
  session : option string;
  db : Database;
  faults : list (option string);
  trace : list Event
}.

(** ** The monad of the server actions *)

Definition M (A : Type) : Type := World -> Result A * World.

Definition ret (A : Type) (a : A) : M A := fun w => (Ok a, w).

Definition throw (A : Type) (message : string) : M A :=
  fun w => (Throw message, w).

Definition diverge (A : Type) : M A := fun w => (Diverge, w).

Definition bind (A B : Type) (m : M A) (k : A -> M B) : M B :=
  fun w =>
    match m w with
    | (Ok a, w') => k a w'
    | (Throw e, w') => (Throw e, w')
    | (Diverge, w') => (Diverge, w')
    end.

(** [try { m } catch (error) { handler error }] *)
Definition try_catch (A : Type) (m : M A) (handler : string -> M A) : M A :=
  fun w =>
    match m w with
    | (Throw e, w') => handler e w'
    | r => r
    end.

Definition emit (e : Event) (w : World) : World :=
  {| plaid := plaid w; session := session w; db := db w;
     faults := faults w; trace := trace w ++ [e] |}.

(** Modelled from the spec: a request to the storage backend, which is not
    part of the sources.  The statement is either executed, with no error
    in the answer, or refused with an error and without effect (section
    4.3: "storage errors" tell "which step failed").  Gives back the
    [error] of the answer. *)
Definition store (q : Statement) : M (option string) :=
  fun w =>
    let error := hd None (faults w) in
    (Ok error,
     {| plaid := plaid w;
        session := session w;
        db := match error with
              | None => run_statement q (db w)
              | Some _ => db w
              end;
        faults := tl (faults w);
        trace := trace w ++ [EvStore q error] |}).

(** The [data] of a select: [null] when the store reports an error. *)
Definition select_cursor (itemId : string) : M (option (option string)) :=
  fun w =>
    match store (SelectCursor itemId) w with
    | (Ok None, w') => (Ok (cursor_of_item itemId (db w')), w')
    | (_, w') => (Ok None, w')
    end.

(** [await plaidClient.transactionsSync(request)], giving [response.data]. *)
Definition call_transactionsSync (request : TransactionsSyncRequest)
    : M TransactionsSyncResponse :=
  fun w =>
    let (reply, a) := transactionsSync (plaid w) request in
    let w' := {| plaid := a; session := session w; db := db w;
                 faults := faults w;
                 trace := trace w ++ [EvTransactionsSync request reply] |} in
    match reply with
    | inl e => (Throw e, w')
    | inr data => (Ok data, w')
    end.

(** [await plaidClient.accountsGet({ access_token })], giving
    [response.data]. *)
Definition call_accountsGet (accessToken : string) : M AccountsGetResponse :=
  fun w =>
    let (reply, a) := accountsGet (plaid w) accessToken in
    let w' := {| plaid := a; session := session w; db := db w;
                 faults := faults w;
                 trace := trace w ++ [EvAccountsGet accessToken reply] |} in
    match reply with
    | inl e => (Throw e, w')
    | inr data => (Ok data, w')
    end.

Definition console_error (label message : string) : M unit :=
  fun w => (Ok tt, emit (EvConsoleError label message) w).

End Engine.

Arguments World Agg : clear implicits.
Arguments M Agg A : clear implicits.
Arguments throw {Agg A} message.
Arguments diverge {Agg A}.

Notation "x <- m ;; k" := (bind m (fun x => k))
  (at level 61, m at next level, right associativity).
Notation "m ;;; k" := (bind m (fun _ => k))
  (at level 61, right associativity).

(** ** The server actions *)

Section Actions.

Context {Agg : Type} {plaidClient : PlaidApi Agg}.

(** The [data?.user?.id] of [supabase.auth.getUser()]. *)
Definition auth_getUser : M Agg (option string) :=
  fun w => (Ok (session w), w).

Definition getUserId : M Agg string :=
  id <- auth_getUser ;;
  match id with
  | Some id => if String.eqb id "" then throw "User not found" else ret id
  | None => throw "User not found"
  end.

(** [if (error) { throw new Error(prefix + error.message) }] *)
Definition throw_if (error : option string) (prefix : string) : M Agg unit :=
  match error with
  | Some message => throw (String.append prefix message)
  | None => ret tt
  end.

(** [name || 'Unknown Institution'] *)
Definition institution_name_or_unknown (name : option string) : string :=
  match name with
  | Some n => if String.eqb n "" then "Unknown Institution" else n
  | None => "Unknown Institution"
  end.

(** The object [storePlaidAccounts] builds for one account. *)
Definition account_row (userId : string) (item : UpdatedItem)
    (account : AccountBase) : AccountRow :=
  {| a_user_id := userId;
     a_item_id := item_id item;
     a_account_id := acc_account_id account;
     a_available_balance := available (balances account);
     a_current_balance := current (balances account);
     a_currency := balance_iso_currency_code (balances account);
     a_name := acc_name account;
     a_official_name := official_name account;
     a_type := type account;
     a_subtype := subtype account;
     a_institution_id := institution_id item;
     a_institution_name :=
       institution_name_or_unknown (institution_name item) |}.

Definition storePlaidAccounts (accounts : list AccountBase) (item : UpdatedItem)
    : M Agg string :=
  userId <- getUserId ;;
  let insertData := map (account_row userId item) accounts in
  error <- store (UpsertAccounts insertData) ;;
  throw_if error "Error inserting accounts: " ;;;
  ret "Successfully stored accounts".

Definition fetchAndStoreAccounts (accessToken : string) : M Agg string :=
  try_catch
    (data <- call_accountsGet accessToken ;;
     storePlaidAccounts (Plaid.accounts data) (item data))
    (fun error =>
       console_error "Error fetching accounts:" error ;;;
       throw "Failed to fetch accounts").

(** The object [applyTransactionUpdates] builds for one transaction. *)
Definition transaction_row (userId : string) (transaction : Transaction)
    : TransactionRow :=
  {| t_user_id := userId;
     t_account_id := account_id transaction;
     t_transaction_id := transaction_id transaction;
     t_amount := amount transaction;
     t_authorized_datetime := authorized_datetime transaction;
     t_datetime := datetime transaction;
     t_personal_finance_category_primary :=
       option_map primary (personal_finance_category transaction);
     t_personal_finance_category_detailed :=
       option_map detailed (personal_finance_category transaction);
     t_name := name transaction;
     t_merchant_name := merchant_name transaction;
     t_payment_channel := payment_channel transaction;
     t_currency := iso_currency_code transaction;
     t_pending := pending transaction |}.

(** [cursor] is the value of the caller's variable, which JavaScript lets be
    [null]. *)
Definition applyTransactionUpdates (itemId : string)
    (added modified : list Transaction) (removed : list string)
    (cursor : option string) : M Agg unit :=
  userId <- getUserId ;;
  let transactionUpserts := map (transaction_row userId) (added ++ modified) in
  upsertError <- store (UpsertTransactions transactionUpserts) ;;
  throw_if upsertError "Error upserting transactions: " ;;;
  (if Nat.ltb 0 (List.length removed)
   then deleteError <- store (DeleteTransactions removed) ;;
        throw_if deleteError "Error deleting transactions: "
   else ret tt) ;;;
  cursorError <- store (UpdateCursor itemId cursor) ;;
  throw_if cursorError "Error updating cursor: ".

(** The variables of [syncTransactions] that its loop assigns. *)
Record SyncVars := {
  v_added : list Transaction;
  v_modified : list Transaction;
  v_removed : list string;
  v_hasMore : bool;
  v_cursor : option string
}.

(** [res.data?.cursor || null] *)
Definition cursor_or_null (data : option (option string)) : option string :=
  match data with
  | Some (Some c) => if String.eqb c "" then None else Some c
  | _ => None
  end.

(** [while (hasMore) { ... }].  The loop has no bound of its own: [fuel]
    only bounds how far the model follows it, and running out of it is
    [Diverge], not a result. *)
Fixpoint sync_loop (fuel : nat) (accessToken : string) (v : SyncVars)
    : M Agg SyncVars :=
  if v_hasMore v then
    match fuel with
    | O => diverge
    | S fuel' =>
        data <- call_transactionsSync
                  {| access_token := accessToken; cursor := v_cursor v |} ;;
        sync_loop fuel' accessToken
          {| v_added := v_added v ++ added data;
             v_modified := v_modified v ++ modified data;
             v_removed :=
               v_removed v ++ map removed_transaction_id (removed data);
             v_hasMore := has_more data;
             v_cursor := Some (next_cursor data) |}
    end
  else ret v.

Definition SyncFailed : string := "Failed to sync transactions".

Definition syncTransactions (fuel : nat) (accessToken itemId : string)
    : M Agg string :=
  data <- select_cursor itemId ;;
  let cursor := cursor_or_null data in
  try_catch
    (v <- sync_loop fuel accessToken
            {| v_added := []; v_modified := []; v_removed := [];
               v_hasMore := true; v_cursor := cursor |} ;;
     applyTransactionUpdates itemId
       (v_added v) (v_modified v) (v_removed v) (v_cursor v) ;;;
     ret "Transactions synced successfully")
    (fun error =>
       console_error "Error syncing transactions:" error ;;;
       throw SyncFailed).

End Actions.

(** ** Vocabulary of the statements *)

Section Vocabulary.

Context {Agg : Type} {plaidClient : PlaidApi Agg}.

(** From state [a], asked with cursor [c] and then with the [next_cursor]
    of each page it gave, the aggregator gives the pages [ps], in this
    order, and is left in state [a']. *)
Fixpoint serves (a : Agg) (accessToken : string) (c : option string)
    (ps : list TransactionsSyncResponse) (a' : Agg) : Prop :=
  match ps with
  | [] => a' = a
  | p :: ps' =>
      exists a1,
        transactionsSync a {| access_token := accessToken; cursor := c |}
          = (inr p, a1)
        /\ serves a1 accessToken (Some (next_cursor p)) ps' a'
  end.

(** The events of these fetches. *)
Fixpoint sync_events (accessToken : string) (c : option string)
    (ps : list TransactionsSyncResponse) : list Event :=
  match ps with
  | [] => []
  | p :: ps' =>
      EvTransactionsSync {| access_token := accessToken; cursor := c |} (inr p)
        :: sync_events accessToken (Some (next_cursor p)) ps'
  end.

(** The world once the aggregator has moved to [a] and [evs] happened. *)
Definition after_fetches (w : World Agg) (a : Agg) (evs : list Event)
    : World Agg :=
  {| plaid := a; session := session w; db := db w;
     faults := faults w; trace := trace w ++ evs |}.

(** The delta of a sequence of pages: the concatenation, page after page,
    of what each page adds, modifies and removes. *)
Definition all_added (ps : list TransactionsSyncResponse) : list Transaction :=
  flat_map added ps.

Definition all_modified (ps : list TransactionsSyncResponse)
    : list Transaction :=
  flat_map modified ps.

Definition all_removed (ps : list TransactionsSyncResponse) : list string :=
  flat_map (fun p => map removed_transaction_id (removed p)) ps.

(** The variables of [syncTransactions] when its loop is entered. *)
Definition initial_vars (c : option string) : SyncVars :=
  {| v_added := []; v_modified := []; v_removed := [];
     v_hasMore := true; v_cursor := c |}.

(** What [syncTransactions] does once its loop has ended with [v]. *)
Definition apply_and_report (itemId : string) (v : SyncVars) : M Agg string :=
  try_catch
    (applyTransactionUpdates itemId
       (v_added v) (v_modified v) (v_removed v) (v_cursor v) ;;;
     ret "Transactions synced successfully")
    (fun error =>
       console_error "Error syncing transactions:" error ;;;
       throw SyncFailed).

(** The cursor [syncTransactions] starts from in world [w]. *)
Definition starting_cursor (itemId : string) (w : World Agg) : option string :=
  cursor_or_null
    (match hd None (faults w) with
     | None => cursor_of_item itemId (db w)
     | Some _ => None
     end).

(** The world once [syncTransactions] has read the cursor. *)
Definition after_select (itemId : string) (w : World Agg) : World Agg :=
  {| plaid := plaid w; session := session w; db := db w;
     faults := tl (faults w);
     trace :=
       trace w ++ [EvStore (SelectCursor itemId) (hd None (faults w))] |}.

(** The [try] block of [syncTransactions] with its [catch]. *)
Definition sync_from (fuel : nat) (accessToken itemId : string)
    (c : option string) : M Agg string :=
  try_catch
    (v <- sync_loop fuel accessToken (initial_vars c) ;;
     applyTransactionUpdates itemId
       (v_added v) (v_modified v) (v_removed v) (v_cursor v) ;;;
     ret "Transactions synced successfully")
    (fun error =>
       console_error "Error syncing transactions:" error ;;;
       throw SyncFailed).

(** The rows of the items table that a select for [itemId] matches. *)
Definition rows_of_item (itemId : string) (d : Database) : list ItemRow :=
  filter (fun r => String.eqb (i_item_id r) itemId) (items d).

Definition is_store (e : Event) : bool :=
  match e with
  | EvStore _ _ => true
  | _ => false
  end.

(** An event that is not a statement writing to the store. *)
Definition writes_nothing (e : Event) : bool :=
  match e with
  | EvStore (SelectCursor _) _ => true
  | EvStore _ _ => false
  | _ => true
  end.

Definition is_cursor_update (e : Event) : bool :=
  match e with
  | EvStore (UpdateCursor _ _) _ => true
  | _ => false
  end.

Definition is_delete (e : Event) : bool :=
  match e with
  | EvStore (DeleteTransactions _) _ => true
  | _ => false
  end.

(** A refused upsert or delete of transactions. *)
Definition is_failed_merge (e : Event) : bool :=
  match e with
  | EvStore (UpsertTransactions _) (Some _) => true
  | EvStore (DeleteTransactions _) (Some _) => true
  | _ => false
  end.

Definition is_failed_fetch (e : Event) : bool :=
  match e with
  | EvTransactionsSync _ (inl _) => true
  | _ => false
  end.

(** The events of an application of a delta in which every step succeeds. *)
Definition apply_events (userId itemId : string)
    (added modified : list Transaction) (removed : list string)
    (cursor : option string) : list Event :=
  EvStore (UpsertTransactions
             (map (transaction_row userId) (added ++ modified))) None
  :: (if Nat.ltb 0 (List.length removed)
      then [EvStore (DeleteTransactions removed) None]
      else [])
  ++ [EvStore (UpdateCursor itemId cursor) None].

(** The database after an application of a delta in which every step
    succeeds. *)
Definition applied (userId itemId : string)
    (added modified : list Transaction) (removed : list string)
    (cursor : option string) (d : Database) : Database :=
  {| items := update_cursor itemId cursor (items d);
     accounts := Db.accounts d;
     transactions :=
       delete_in t_transaction_id removed
         (upsert t_transaction_id
            (map (transaction_row userId) (added ++ modified))
            (transactions d)) |}.

(** What a cursor commit for [itemId] may make of an item row: nothing, or,
    when the row is one of [itemId], the same row with the cursor [c]. *)
Definition cursor_write (itemId : string) (c : option string)
    (old new : ItemRow) : Prop :=
  new = old \/ (i_item_id old = itemId /\ new = set_cursor c old).

(** The transactions table once the upsert of a delta has been executed. *)
Definition upserted (userId : string) (added modified : list Transaction)
    (d : Database) : list TransactionRow :=
  transactions
    (run_statement
       (UpsertTransactions (map (transaction_row userId) (added ++ modified)))
       d).

Definition ids (l : list Transaction) : list string := map transaction_id l.



(** The row carries the fields of the account, of the item and the user:
    column by column, what the object literal of [storePlaidAccounts]
    gives. *)
Definition account_fields (userId : string) (item : UpdatedItem)
    (account : AccountBase) (row : AccountRow) : Prop :=
  a_user_id row = userId
  /\ a_item_id row = item_id item
  /\ a_account_id row = acc_account_id account
  /\ a_available_balance row = available (balances account)
  /\ a_current_balance row = current (balances account)
  /\ a_currency row = balance_iso_currency_code (balances account)
  /\ a_name row = acc_name account
  /\ a_official_name row = official_name account
  /\ a_type row = type account
  /\ a_subtype row = subtype account
  /\ a_institution_id row = institution_id item
  /\ a_institution_name row
     = match institution_name item with
       | Some n => if String.eqb n "" then "Unknown Institution" else n
       | None => "Unknown Institution"
       end.

End Vocabulary.

(** ** A scripted aggregator and the scenarios of the specification *)

(** An aggregator that answers [transactionsSync] from a script, whatever
    it is asked, and throws once the script is used up. *)
Record Script := {
  replies : list (string + TransactionsSyncResponse);
  snapshot : string + AccountsGetResponse
}.

#[export] Instance scripted : PlaidApi Script := {
  transactionsSync s _ :=
    match replies s with
    | [] => (inl "ETIMEDOUT", s)
    | reply :: rest => (reply, {| replies := rest; snapshot := snapshot s |})
    end;
  accountsGet s _ := (snapshot s, s)
}.

Definition sample_transaction (id : string) (cents : Z) : Transaction :=
  {| account_id := "acc-1";
     transaction_id := id;
     amount := cents;
     authorized_datetime := None;
     datetime := Some "2024-05-01T10:00:00Z";
     personal_finance_category :=
       Some {| primary := "FOOD_AND_DRINK";
               detailed := "FOOD_AND_DRINK_COFFEE" |};
     name := "Coffee";
     merchant_name := None;
     payment_channel := "in store";
     iso_currency_code := Some "USD";
     pending := false |}.

Definition T1 : Transaction := sample_transaction "T1" 450.
Definition T2 : Transaction := sample_transaction "T2" 1299.
Definition T1_modified : Transaction := sample_transaction "T1" 475.

(** The two pages of the two-page scenario of section 8. *)
Definition page1 : TransactionsSyncResponse :=
  {| added := [T1]; modified := []; removed := [];
     has_more := true; next_cursor := "c1" |}.

Definition page2 : TransactionsSyncResponse :=
  {| added := [T2]; modified := [];
     removed := [{| removed_transaction_id := "T1";
                    removed_account_id := "acc-1" |}];
     has_more := false; next_cursor := "c2" |}.

Definition sample_item_row (c : option string) : ItemRow :=
  {| i_user_id := "user-1";
     i_access_token := "access-sandbox";
     i_item_id := "item-1";
     i_institution_id := Some "ins_3";
     i_institution_name := "Chase";
     i_cursor := c |}.

Definition sample_account (id : string) : AccountBase :=
  {| acc_account_id := id;
     balances := {| available := Some 10000%Z; current := Some 11000%Z;
                    balance_iso_currency_code := Some "USD" |};
     acc_name := "Checking";
     official_name := None;
     type := "depository";
     subtype := Some "checking" |}.

Definition sample_snapshot : AccountsGetResponse :=
  {| Plaid.accounts := [sample_account "acc-1"; sample_account "acc-2"];
     item := {| item_id := "item-1"; institution_id := Some "ins_3";
                institution_name := None |} |}.

(** A world with the session of [user-1], the given item rows, no
    transaction, and the given script and storage answers. *)
Definition sample_world (rows : list ItemRow)
    (script : list (string + TransactionsSyncResponse))
    (answers : list (option string)) : World Script :=
  {| plaid := {| replies := script; snapshot := inr sample_snapshot |};
     session := Some "user-1";
     db := {| items := rows; Db.accounts := []; transactions := [] |};
     faults := answers;
     trace := [] |}.

Definition script_end : Script :=
  {| replies := []; snapshot := inr sample_snapshot |}.

(** An aggregator whose every page has [has_more = true]. *)
Definition endless_page : TransactionsSyncResponse :=
  {| added := []; modified := []; removed := [];
     has_more := true; next_cursor := "next" |}.

#[export] Instance endless : PlaidApi unit := {
  transactionsSync _ _ := (inr endless_page, tt);
  accountsGet _ _ := (inl "ETIMEDOUT", tt)
}.

(** ** The link of an item and the reads of the dashboard *)

Section MoreActions.

Context {Agg : Type}.

(** The text of the error of an insert that would give an item identifier
    a second row.  It is the backend's; no statement looks at it. *)
Definition unique_violation : string :=
  "duplicate key value violates unique constraint".

(** Modelled from the spec: the rows of a table of items after an insert of
    [rows], or [None] when the insert would give a second row to an item
    identifier, which is unique (section 3: "item identifier (unique,
    external)"). *)
Fixpoint insert_rows (rows : list ItemRow) (t : list ItemRow)
    : option (list ItemRow) :=
  match rows with
  | [] => Some t
  | r :: rest =>
      if mem (i_item_id r) (keys i_item_id t) then None
      else insert_rows rest (t ++ [r])
  end.

(** Modelled from the spec: [.insert(rows)] on the items of the storage
    backend, which is not part of the sources.  The statement is executed,
    adding the rows, or refused with an error and without effect: with the
    error of the coming answer of the store if it has one, and otherwise
    when an item identifier would get a second row.  The request is outside
    [trace], which keeps to the requests of the synchronisation and of the
    refresh. *)
Definition insert_items (rows : list ItemRow) : M Agg (option string) :=
  fun w =>
    let inserted :=
      match hd None (faults w) with
      | Some e => inr e
      | None =>
          match insert_rows rows (items (db w)) with
          | Some t => inl t
          | None => inr unique_violation
          end
      end in
    (Ok match inserted with
        | inl _ => None
        | inr e => Some e
        end,
     {| plaid := plaid w;
        session := session w;
        db := match inserted with
              | inl t => {| items := t;
                            Db.accounts := Db.accounts (db w);
                            transactions := transactions (db w) |}
              | inr _ => db w
              end;
        faults := tl (faults w);
        trace := trace w |}).

(** The object [storePlaidItem] inserts.  It gives no cursor: the column
    starts out [null] (section 3: "null on first sync"). *)
Definition item_row (userId accessToken : string) (item : UpdatedItem)
    : ItemRow :=
  {| i_user_id := userId;
     i_access_token := accessToken;
     i_item_id := item_id item;
     i_institution_id := institution_id item;
     i_institution_name :=
       institution_name_or_unknown (institution_name item);
     i_cursor := None |}.

Definition storePlaidItem (accessToken : string) (item : UpdatedItem)
    : M Agg string :=
  userId <- getUserId ;;
  error <- insert_items [item_row userId accessToken item] ;;
  throw_if error "Error storing Plaid item: " ;;;
  ret "Successfully stored Plaid item".

(** Modelled from the spec: a read [.select('*').eq('user_id', userId)] of
    the storage backend, which is not part of the sources: it answers with
    an error ([inl]) or with the rows of the table that have this user
    ([inr]), and changes nothing.  Like [insert_items] it is outside
    [trace]. *)
Definition select_of_user (R : Type) (table : Database -> list R)
    (user : R -> string) (userId : string) : M Agg (string + list R) :=
  fun w =>
    (Ok match hd None (faults w) with
        | Some e => inl e
        | None =>
            inr (filter (fun r => String.eqb (user r) userId) (table (db w)))
        end,
     {| plaid := plaid w; session := session w; db := db w;
        faults := tl (faults w); trace := trace w |}).

Definition fetchAccounts : M Agg (list AccountRow) :=
  userId <- getUserId ;;
  reply <- select_of_user Db.accounts a_user_id userId ;;
  match reply with
  | inl message => throw (String.append "Error fetching accounts: " message)
  | inr data => ret data
  end.

Definition fetchTransactions : M Agg (list TransactionRow) :=
  userId <- getUserId ;;
  reply <- select_of_user transactions t_user_id userId ;;
  match reply with
  | inl message =>
      throw (String.append "Error fetching transactions: " message)
  | inr data => ret data
  end.

End MoreActions.

(** ** The configuration, [plaid/config.ts] *)

Module Config.

(** [process.env]: a variable is set to a string or is not set. *)
Definition Env : Type := string -> option string.

(** [value || fallback] on a string that may be missing. *)
Definition or_default (value : option string) (fallback : string) : string :=
  match value with
  | Some s => if String.eqb s "" then fallback else s
  | None => fallback
  end.

(** [s.split(sep)] for a separator of one character: the pieces between
    the occurrences of the separator, empty pieces included. *)
Fixpoint split (sep : Ascii.ascii) (s : string) : list string :=
  match s with
  | EmptyString => [EmptyString]
  | String c s' =>
      if Ascii.eqb c sep then EmptyString :: split sep s'
      else match split sep s' with
           | piece :: rest => String c piece :: rest
           | [] => [String c EmptyString]
           end
  end.

(** The character [,], of code 44. *)
Definition comma : Ascii.ascii := Ascii.ascii_of_nat 44.

Definition PLAID_CLIENT_ID (env : Env) : string :=
  or_default (env "PLAID_CLIENT_ID") "".

Definition PLAID_SECRET (env : Env) : string :=
  or_default (env "PLAID_SECRET") "".

Definition PLAID_ENV (env : Env) : string :=
  or_default (env "PLAID_ENV") "".

Definition PLAID_PRODUCTS (env : Env) : list string :=
  split comma (or_default (env "PLAID_PRODUCTS") "transactions").

Definition PLAID_COUNTRY_CODES (env : Env) : list string :=
  split comma (or_default (env "PLAID_COUNTRY_CODES") "US").

(** Whether a string has the character. *)
Fixpoint has_char (c : Ascii.ascii) (s : string) : bool :=
  match s with
  | EmptyString => false
  | String c' s' => Ascii.eqb c' c || has_char c s'
  end.

End Config.

(** The same world without a session. *)
Definition signed_out (w : World Script) : World Script :=
  {| plaid := plaid w; session := None; db := db w;
     faults := faults w; trace := trace w |}.

(** The same world with the given transaction rows. *)
Definition holding (rows : list TransactionRow) (w : World Script)
    : World Script :=
  {| plaid := plaid w; session := session w;
     db := {| items := items (db w); Db.accounts := Db.accounts (db w);
              transactions := rows |};
     faults := faults w; trace := trace w |}.

Definition sample_item : UpdatedItem :=
  {| item_id := "item-1"; institution_id := Some "ins_3";
     institution_name := Some "Chase" |}.

(** ** The chain of the fetches *)

(** Fetches with the access token [accessToken] of which the first carries
    the cursor [c] and each next one the [next_cursor] of the page before;
    nothing follows a fetch that throws or a page with [has_more = false]. *)
Fixpoint chained (accessToken : string) (c : option string)
    (evs : list Event) : Prop :=
  match evs with
  | [] => True
  | EvTransactionsSync request reply :: rest =>
      request = {| access_token := accessToken; cursor := c |}
      /\ match reply with
         | inl _ => rest = []
         | inr p =>
             if has_more p
             then chained accessToken (Some (next_cursor p)) rest
             else rest = []
         end
  | _ :: _ => False
  end.

(** * Properties *)

(** ** Tables *)

Section TableFacts.

Variable R : Type.
Variable key : R -> string.


Lemma has_key_true (k : string) (r : R) : has_key key k r = true <-> key r = k.
Proof. apply String.eqb_eq. Qed.

Lemma has_key_false (k : string) (r : R) :
  has_key key k r = false <-> key r <> k.
Proof. apply String.eqb_neq. Qed.

Lemma has_key_self (r : R) : has_key key (key r) r = true.
Proof. apply String.eqb_refl. Qed.

Lemma mem_true (k : string) (ks : list string) : mem k ks = true <-> In k ks.
Proof.
  unfold mem. rewrite existsb_exists. split.
  - intros [x [Hin Heq]]. apply String.eqb_eq in Heq. now subst.
  - intros Hin. exists k. split; [assumption | apply String.eqb_refl].
Qed.

Lemma mem_false (k : string) (ks : list string) :
  mem k ks = false <-> ~ In k ks.
Proof.
  rewrite <- mem_true. destruct (mem k ks); split; congruence.
Qed.

Lemma present_iff (k : string) (t : list R) :
  existsb (has_key key k) t = true <-> In k (keys key t).
Proof.
  unfold keys. rewrite existsb_exists, in_map_iff. split.
  - intros [x [Hin Hk]]. exists x. split; [now apply has_key_true | assumption].
  - intros [x [Hk Hin]]. exists x. split; [assumption | now apply has_key_true].
Qed.

(** The update in place keeps the key of every row. *)
Lemma replace_keeps_key (r x : R) :
  key (if has_key key (key r) x then r else x) = key x.
Proof.
  destruct (has_key key (key r) x) eqn:E; [|reflexivity].
  apply has_key_true in E. now symmetry.
Qed.

Lemma keys_replace (r : R) (t : list R) :
  keys key (map (fun x => if has_key key (key r) x then r else x) t)
  = keys key t.
Proof.
  unfold keys. rewrite map_map. apply map_ext. intros x. apply replace_keeps_key.
Qed.

Lemma keys_upsert_row (t : list R) (r : R) :
  keys key (upsert_row key t r)
  = if existsb (has_key key (key r)) t then keys key t
    else keys key t ++ [key r].
Proof.
  unfold upsert_row. destruct (existsb (has_key key (key r)) t).
  - apply keys_replace.
  - unfold keys. now rewrite map_app.
Qed.

Lemma upsert_cons (r : R) (rows t : list R) :
  upsert key (r :: rows) t = upsert key rows (upsert_row key t r).
Proof. reflexivity. Qed.

Lemma last_with_cons (k : string) (r : R) (rows : list R) :
  last_with key k (r :: rows)
  = match last_with key k rows with
    | Some y => Some y
    | None => if has_key key k r then Some r else None
    end.
Proof.
  unfold last_with. simpl rev.
  induction (rev rows) as [|y l IH]; simpl.
  - reflexivity.
  - destruct (has_key key k y); [reflexivity | exact IH].
Qed.


Lemma last_with_some (k : string) (rows : list R) (r : R) :
  last_with key k rows = Some r -> In r rows /\ key r = k.
Proof.
  unfold last_with. intros H. apply find_some in H. destruct H as [Hin Hk].
  split; [now apply in_rev | now apply has_key_true].
Qed.

Lemma last_with_none (k : string) (rows : list R) :
  last_with key k rows = None <-> ~ In k (keys key rows).
Proof.
  unfold last_with, keys. split.
  - intros H [x [Hk Hin]]%in_map_iff.
    assert (Hf : has_key key k x = false)
      by (apply (find_none _ _ H x); now apply -> in_rev).
    apply has_key_false in Hf. contradiction.
  - intros H. destruct (find (has_key key k) (rev rows)) as [x|] eqn:E; [|reflexivity].
    apply find_some in E. destruct E as [Hin Hk]. exfalso. apply H.
    apply in_map_iff. exists x. split; [now apply has_key_true | now apply in_rev].
Qed.

(** *** Upsert *)

Lemma in_upsert_row (t : list R) (r x : R) :
  In x (upsert_row key t r) -> x = r \/ (In x t /\ key x <> key r).
Proof.
  unfold upsert_row. destruct (existsb (has_key key (key r)) t) eqn:E.
  - intros [y [Hy Hin]]%in_map_iff.
    destruct (has_key key (key r) y) eqn:Ey.
    + left. now symmetry.
    + right. subst y. split; [assumption | now apply has_key_false].
  - intros [Hin | [Heq | []]]%in_app_or.
    + right. split; [assumption|]. intros Hk.
      assert (Hp : existsb (has_key key (key r)) t = true).
      { apply existsb_exists. exists x. split; [assumption | now apply has_key_true]. }
      congruence.
    + left. now symmetry.
Qed.

Lemma present_upsert_row (t : list R) (r : R) (k : string) :
  In k (keys key (upsert_row key t r)) <-> In k (keys key t) \/ k = key r.
Proof.
  rewrite keys_upsert_row.
  destruct (existsb (has_key key (key r)) t) eqn:E.
  - split; [now left|]. intros [H | ->]; [assumption | now apply present_iff].
  - rewrite in_app_iff. simpl. intuition.
Qed.

Lemma present_upsert (rows t : list R) (k : string) :
  In k (keys key (upsert key rows t))
  <-> In k (keys key t) \/ In k (keys key rows).
Proof.
  revert t. induction rows as [|r rows IH]; intros t.
  - simpl. intuition.
  - rewrite upsert_cons, IH, present_upsert_row. simpl. intuition.
Qed.

Lemma lookup_upsert_row (t : list R) (r : R) (k : string) :
  lookup key k (upsert_row key t r)
  = if has_key key k r then Some r else lookup key k t.
Proof.
  unfold lookup, upsert_row.
  destruct (existsb (has_key key (key r)) t) eqn:E.
  - destruct (has_key key k r) eqn:Ek.
    + apply has_key_true in Ek. subst k.
      induction t as [|x t IH]; [discriminate|]. simpl in *.
      destruct (has_key key (key r) x) eqn:Ex; simpl.
      * now rewrite has_key_self.
      * rewrite Ex. apply IH. exact E.
    + clear E. induction t as [|x t IH]; [reflexivity|]. simpl.
      destruct (has_key key (key r) x) eqn:Ex.
      * rewrite Ek. apply has_key_true in Ex.
        assert (Hx : has_key key k x = false).
        { apply has_key_false. rewrite Ex. now apply has_key_false. }
        now rewrite Hx.
      * destruct (has_key key k x); [reflexivity | exact IH].
  - destruct (has_key key k r) eqn:Ek.
    + apply has_key_true in Ek. subst k.
      induction t as [|x t IH]; simpl in *.
      * now rewrite has_key_self.
      * destruct (has_key key (key r) x); [discriminate | now apply IH].
    + induction t as [|x t IH]; simpl in *.
      * now rewrite Ek.
      * destruct (has_key key k x); [reflexivity|].
        apply IH. now destruct (has_key key (key r) x).
Qed.

(** After an upsert, a key of the batch selects the last row the batch has
    for it, and any other key selects what it selected before. *)
Lemma lookup_upsert (rows t : list R) (k : string) :
  lookup key k (upsert key rows t)
  = match last_with key k rows with
    | Some r => Some r
    | None => lookup key k t
    end.
Proof.
  revert t. induction rows as [|r rows IH]; intros t; [reflexivity|].
  rewrite upsert_cons, IH, last_with_cons, lookup_upsert_row.
  destruct (last_with key k rows); [reflexivity|].
  now destruct (has_key key k r).
Qed.

Lemma in_upsert (rows t : list R) (x : R) :
  In x (upsert key rows t) ->
  last_with key (key x) rows = Some x
  \/ (last_with key (key x) rows = None /\ In x t).
Proof.
  revert t. induction rows as [|r rows IH]; intros t Hin.
  - right. split; [reflexivity | assumption].
  - rewrite upsert_cons in Hin. rewrite last_with_cons.
    destruct (IH _ Hin) as [-> | [-> Hx]]; [now left|].
    destruct (in_upsert_row _ _ _ Hx) as [-> | [Ht Hk]].
    + left. now rewrite has_key_self.
    + right. split; [|assumption].
      assert (Hf : has_key key (key x) r = false)
        by (apply has_key_false; congruence).
      now rewrite Hf.
Qed.

Lemma upsert_settle (rows t : list R) :
  (forall r, In r rows -> In (key r) (keys key t)) ->
  upsert key rows t = map (settle key rows) t.
Proof.
  revert t. induction rows as [|r rows IH]; intros t Hall.
  - simpl. symmetry. apply map_id.
  - rewrite upsert_cons.
    assert (E : existsb (has_key key (key r)) t = true)
      by (apply present_iff, Hall; now left).
    rewrite IH.
    + unfold upsert_row. rewrite E, map_map. apply map_ext. intros x.
      unfold settle. rewrite replace_keeps_key, last_with_cons.
      destruct (has_key key (key r) x) eqn:Ex.
      * apply has_key_true in Ex. rewrite Ex.
        destruct (last_with key (key r) rows); [reflexivity|].
        now rewrite has_key_self.
      * destruct (last_with key (key x) rows); [reflexivity|].
        assert (Hf : has_key key (key x) r = false).
        { apply has_key_false. apply has_key_false in Ex. congruence. }
        now rewrite Hf.
    + intros r' Hr'. apply present_upsert_row. left. apply Hall. now right.
Qed.

(** Writing a batch a second time changes nothing. *)
Lemma upsert_idem (rows t : list R) :
  upsert key rows (upsert key rows t) = upsert key rows t.
Proof.
  rewrite upsert_settle.
  - rewrite <- (map_id (upsert key rows t)) at 2.
    apply map_ext_in. intros x Hx. unfold settle.
    destruct (in_upsert _ _ _ Hx) as [-> | [-> _]]; reflexivity.
  - intros r Hr. apply present_upsert. right. now apply in_map.
Qed.

(** *** Delete *)

Lemma in_delete_in (ks : list string) (t : list R) (x : R) :
  In x (delete_in key ks t) <-> In x t /\ ~ In (key x) ks.
Proof.
  unfold delete_in. rewrite filter_In, negb_true_iff, mem_false. reflexivity.
Qed.


Lemma delete_in_nil (t : list R) : delete_in key [] t = t.
Proof.
  unfold delete_in. induction t as [|x t IH]; simpl; [reflexivity|].
  f_equal. exact IH.
Qed.

Lemma delete_in_idem (ks : list string) (t : list R) :
  delete_in key ks (delete_in key ks t) = delete_in key ks t.
Proof.
  unfold delete_in. induction t as [|x t IH]; simpl; [reflexivity|].
  destruct (negb (mem (key x) ks)) eqn:E; simpl; [rewrite E, IH|]; auto.
Qed.

Lemma delete_in_app (ks : list string) (t1 t2 : list R) :
  delete_in key ks (t1 ++ t2) = delete_in key ks t1 ++ delete_in key ks t2.
Proof. apply filter_app. Qed.

Lemma present_delete_in (ks : list string) (t : list R) (k : string) :
  In k (keys key (delete_in key ks t)) <-> In k (keys key t) /\ ~ In k ks.
Proof.
  unfold keys. rewrite !in_map_iff. split.
  - intros [x [Hx [Hin Hn]%in_delete_in]]. subst k. split; [|assumption].
    exists x. now split.
  - intros [[x [Hx Hin]] Hn]. exists x. split; [assumption|].
    apply in_delete_in. split; [assumption | now rewrite Hx].
Qed.

(** Deleting after one row of an upsert: the row is dropped when its key is
    deleted, and is upserted after the deletion otherwise. *)
Lemma delete_in_upsert_row (ks : list string) (t : list R) (r : R) :
  delete_in key ks (upsert_row key t r)
  = if mem (key r) ks then delete_in key ks t
    else upsert_row key (delete_in key ks t) r.
Proof.
  unfold upsert_row.
  destruct (existsb (has_key key (key r)) t) eqn:E.
  - destruct (mem (key r) ks) eqn:Em.
    + clear E. unfold delete_in. induction t as [|x t IH]; [reflexivity|].
      simpl. destruct (has_key key (key r) x) eqn:Ex.
      * apply has_key_true in Ex. rewrite Ex, Em. simpl. exact IH.
      * destruct (negb (mem (key x) ks)); [now rewrite IH | exact IH].
    + assert (E' : existsb (has_key key (key r)) (delete_in key ks t) = true).
      { apply present_iff, present_delete_in. split.
        - now apply present_iff.
        - now apply mem_false. }
      rewrite E'. clear E E'. unfold delete_in.
      induction t as [|x t IH]; [reflexivity|].
      simpl. rewrite replace_keeps_key.
      destruct (negb (mem (key x) ks)); simpl; now rewrite IH.
  - rewrite delete_in_app. unfold delete_in at 2. simpl.
    destruct (mem (key r) ks) eqn:Em; simpl.
    + apply app_nil_r.
    + assert (E' : existsb (has_key key (key r)) (delete_in key ks t) = false).
      { destruct (existsb (has_key key (key r)) (delete_in key ks t)) eqn:E';
          [|reflexivity].
        apply present_iff, present_delete_in in E'. destruct E' as [E' _].
        apply present_iff in E'. congruence. }
      now rewrite E'.
Qed.

(** Deleting after an upsert is upserting, after the deletion, the rows of
    the batch whose key is not deleted. *)
Lemma delete_in_upsert (ks : list string) (rows t : list R) :
  delete_in key ks (upsert key rows t)
  = upsert key (delete_in key ks rows) (delete_in key ks t).
Proof.
  revert t. induction rows as [|r rows IH]; intros t; [reflexivity|].
  rewrite upsert_cons, IH, delete_in_upsert_row.
  unfold delete_in at 4. simpl.
  destruct (mem (key r) ks); reflexivity.
Qed.

(** An upsert followed by a delete, done twice, is the same as done once. *)
Lemma upsert_delete_idem (ks : list string) (rows t : list R) :
  delete_in key ks (upsert key rows (delete_in key ks (upsert key rows t)))
  = delete_in key ks (upsert key rows t).
Proof.
  rewrite (delete_in_upsert ks rows (delete_in key ks _)).
  rewrite delete_in_idem.
  rewrite (delete_in_upsert ks rows t).
  apply upsert_idem.
Qed.

(** *** The rows of one key *)

Lemma rows_upsert_row (k : string) (t : list R) (r : R) :
  key r <> k ->
  filter (has_key key k) (upsert_row key t r) = filter (has_key key k) t.
Proof.
  intros Hk. apply has_key_false in Hk. unfold upsert_row.
  destruct (existsb (has_key key (key r)) t).
  - induction t as [|x t IH]; [reflexivity|]. simpl.
    destruct (has_key key (key r) x) eqn:Ex.
    + apply has_key_true in Ex. rewrite Hk.
      assert (Hx : has_key key k x = false).
      { apply has_key_false. rewrite Ex. now apply has_key_false. }
      now rewrite Hx.
    + destruct (has_key key k x); now rewrite IH.
  - rewrite filter_app. simpl. rewrite Hk. apply app_nil_r.
Qed.

Lemma rows_upsert (k : string) (rows t : list R) :
  ~ In k (keys key rows) ->
  filter (has_key key k) (upsert key rows t) = filter (has_key key k) t.
Proof.
  revert t. induction rows as [|r rows IH]; intros t Hk; [reflexivity|].
  rewrite upsert_cons, IH.
  - apply rows_upsert_row. intros Heq. apply Hk. now left.
  - intros Hin. apply Hk. now right.
Qed.

Lemma rows_delete_in (k : string) (ks : list string) (t : list R) :
  ~ In k ks ->
  filter (has_key key k) (delete_in key ks t) = filter (has_key key k) t.
Proof.
  intros Hk. unfold delete_in. induction t as [|x t IH]; [reflexivity|].
  simpl. destruct (mem (key x) ks) eqn:Em; simpl.
  - destruct (has_key key k x) eqn:Ex; [|exact IH].
    apply has_key_true in Ex. apply mem_true in Em. congruence.
  - destruct (has_key key k x); now rewrite IH.
Qed.

(** *** The unique index *)

Lemma unique_upsert_row (t : list R) (r : R) :
  NoDup (keys key t) -> NoDup (keys key (upsert_row key t r)).
Proof.
  intros H. rewrite keys_upsert_row.
  destruct (existsb (has_key key (key r)) t) eqn:E; [assumption|].
  apply NoDup_app.
  - assumption.
  - repeat constructor. intros [].
  - intros k Hk [<- | []].
    apply present_iff in Hk. congruence.
Qed.

Lemma unique_upsert (rows t : list R) :
  NoDup (keys key t) -> NoDup (keys key (upsert key rows t)).
Proof.
  revert t. induction rows as [|r rows IH]; intros t H; [assumption|].
  rewrite upsert_cons. apply IH. now apply unique_upsert_row.
Qed.

Lemma unique_delete_in (ks : list string) (t : list R) :
  NoDup (keys key t) -> NoDup (keys key (delete_in key ks t)).
Proof.
  unfold keys, delete_in. induction t as [|x t IH]; simpl; intros H.
  - constructor.
  - inversion H as [|? ? Hx Ht]; subst.
    destruct (negb (mem (key x) ks)); simpl; [|now apply IH].
    constructor; [|now apply IH].
    intros [y [Hy Hin]]%in_map_iff. apply filter_In in Hin.
    apply Hx. apply in_map_iff. exists y. tauto.
Qed.

End TableFacts.

(** ** The application of a delta *)

Section ApplyFacts.

Context {Agg : Type} {plaidClient : PlaidApi Agg}.

Ltac outcome_crush :=
  unfold applied, apply_events; simpl;
  rewrite ?delete_in_nil, <- ?app_assoc; simpl;
  repeat split; auto; try discriminate.

Ltac outcome_case uid :=
  simpl; repeat split; right; exists uid;
  split; [reflexivity|]; split; [assumption|]; cbv zeta;
  first [ left; eexists; solve [outcome_crush]
        | right; left; eexists; solve [outcome_crush]
        | right; right; left; eexists; solve [outcome_crush]
        | right; right; right; solve [outcome_crush] ].

(** The five ways an application of a delta can go. *)
Lemma apply_outcome (itemId : string) (added modified : list Transaction)
    (removed : list string) (cursor : option string) (w w' : World Agg)
    (r : Result unit) :
  applyTransactionUpdates itemId added modified removed cursor w = (r, w') ->
  plaid w' = plaid w /\ session w' = session w /\
  ((r = Throw "User not found" /\ (session w = None \/ session w = Some "")
    /\ w' = w)
   \/ exists userId, session w = Some userId /\ userId <> "" /\
      let rows := map (transaction_row userId) (added ++ modified) in
      let upserted := run_statement (UpsertTransactions rows) (db w) in
      let merged := run_statement (DeleteTransactions removed) upserted in
      ((exists e, r = Throw (String.append "Error upserting transactions: " e)
          /\ db w' = db w
          /\ trace w' = trace w ++ [EvStore (UpsertTransactions rows) (Some e)])
       \/ (exists e, r = Throw (String.append "Error deleting transactions: " e)
          /\ removed <> []
          /\ db w' = upserted
          /\ trace w' = trace w ++ [EvStore (UpsertTransactions rows) None;
               EvStore (DeleteTransactions removed) (Some e)])
       \/ (exists e, r = Throw (String.append "Error updating cursor: " e)
          /\ db w' = merged
          /\ trace w' = trace w
               ++ removelast
                    (apply_events userId itemId added modified removed cursor)
               ++ [EvStore (UpdateCursor itemId cursor) (Some e)])
       \/ (r = Ok tt
          /\ db w' = applied userId itemId added modified removed cursor (db w)
          /\ trace w' = trace w
               ++ apply_events userId itemId added modified removed cursor))).
Proof.
  destruct w as [a s d f tr].
  unfold applyTransactionUpdates, getUserId, auth_getUser, bind, store,
    throw_if, throw, ret.
  simpl. intros H.
  destruct s as [uid|]; [destruct (String.eqb uid "") eqn:Euid|].
  - apply String.eqb_eq in Euid. subst uid.
    inversion H; subst; simpl. repeat split. left. auto.
  - apply String.eqb_neq in Euid.
    destruct f as [|[e1|] f1]; simpl in H.
    + destruct removed as [|k ks]; simpl in H; inversion H; subst;
        outcome_case uid.
    + inversion H; subst; outcome_case uid.
    + destruct removed as [|k ks]; simpl in H.
      * destruct f1 as [|[e2|] f2]; simpl in H; inversion H; subst;
          outcome_case uid.
      * destruct f1 as [|[e2|] f2]; simpl in H;
          [ inversion H; subst; outcome_case uid
          | inversion H; subst; outcome_case uid
          | ].
        destruct f2 as [|[e3|] f3]; simpl in H; inversion H; subst;
          outcome_case uid.
  - inversion H; subst; simpl. repeat split. left. auto.
Qed.

Lemma apply_ok (itemId : string) (added modified : list Transaction)
    (removed : list string) (cursor : option string) (w w' : World Agg) :
  applyTransactionUpdates itemId added modified removed cursor w
  = (Ok tt, w') ->
  exists userId,
    session w = Some userId /\ userId <> "" /\ session w' = Some userId
    /\ db w' = applied userId itemId added modified removed cursor (db w)
    /\ trace w' = trace w
         ++ apply_events userId itemId added modified removed cursor.
Proof.
  intros H. apply apply_outcome in H.
  destruct H as (_ & Hs & [(Hr & _) | (uid & Hu & Hne & H)]); [discriminate|].
  exists uid. cbv zeta in H.
  destruct H as [(e & Hr & _) | [(e & Hr & _) | [(e & Hr & _) | (_ & Hd & Ht)]]];
    try discriminate.
  repeat split; auto. congruence.
Qed.

Lemma last_with_rows (userId k : string) (l : list Transaction) :
  last_with t_transaction_id k (map (transaction_row userId) l)
  = option_map (transaction_row userId) (last_with transaction_id k l).
Proof.
  induction l as [|t l IH]; [reflexivity|].
  simpl map. rewrite !last_with_cons, IH.
  destruct (last_with transaction_id k l); [reflexivity|].
  unfold has_key. simpl. now destruct (String.eqb (transaction_id t) k).
Qed.

Lemma keys_rows (userId : string) (l : list Transaction) :
  keys t_transaction_id (map (transaction_row userId) l) = ids l.
Proof. unfold keys, ids. rewrite map_map. reflexivity. Qed.

Lemma update_cursor_idem (itemId : string) (c : option string)
    (t : list ItemRow) :
  update_cursor itemId c (update_cursor itemId c t) = update_cursor itemId c t.
Proof.
  unfold update_cursor. rewrite map_map. apply map_ext. intros r.
  destruct (String.eqb (i_item_id r) itemId) eqn:E; simpl; now rewrite E.
Qed.

Lemma update_cursor_absent (itemId : string) (c : option string)
    (t : list ItemRow) :
  (forall r, In r t -> i_item_id r <> itemId) -> update_cursor itemId c t = t.
Proof.
  intros H. unfold update_cursor. rewrite <- (map_id t) at 2.
  apply map_ext_in. intros r Hr. apply H in Hr.
  apply String.eqb_neq in Hr. now rewrite Hr.
Qed.

Lemma update_cursor_writes (itemId : string) (c : option string)
    (t : list ItemRow) :
  Forall2 (cursor_write itemId c) t (update_cursor itemId c t).
Proof.
  induction t as [|r t IH]; simpl; constructor; [|exact IH].
  destruct (String.eqb (i_item_id r) itemId) eqn:E.
  - right. split; [now apply String.eqb_eq | reflexivity].
  - now left.
Qed.

Lemma no_cursor_write (itemId : string) (c : option string) (t : list ItemRow) :
  Forall2 (cursor_write itemId c) t t.
Proof. induction t; constructor; [now left | assumption]. Qed.

(** C2.  An application of a delta either performs its upsert, its delete
    (when there is one) and its cursor commit, all three answered without an
    error, or it throws and leaves the items, and so every stored cursor, as
    they were.  When the upsert or the delete is refused, no cursor update
    is sent to the store. *)
Theorem apply_commits_cursor_only_on_success (itemId : string)
    (added modified : list Transaction) (removed : list string)
    (cursor : option string) (w w' : World Agg) (r : Result unit) :
  applyTransactionUpdates itemId added modified removed cursor w = (r, w') ->
  exists evs,
    trace w' = trace w ++ evs
    /\ ((exists userId,
           r = Ok tt
           /\ evs = apply_events userId itemId added modified removed cursor
           /\ db w'
              = applied userId itemId added modified removed cursor (db w))
        \/ (exists e, r = Throw e /\ items (db w') = items (db w)))
    /\ (existsb is_failed_merge evs = true ->
        existsb is_cursor_update evs = false).
Proof.
  intros H. apply apply_outcome in H.
  destruct H as (_ & _ & [(Hr & _ & ->) | (uid & Hu & Hne & H)]).
  - exists []. rewrite app_nil_r. split; [reflexivity|]. split.
    + right. now exists "User not found".
    + discriminate.
  - cbv zeta in H.
    destruct H as [(e & Hr & Hd & Ht) | [(e & Hr & Hne' & Hd & Ht)
                  | [(e & Hr & Hd & Ht) | (Hr & Hd & Ht)]]];
      eexists; (split; [exact Ht|]); split.
    + right. eexists. split; [exact Hr | now rewrite Hd].
    + reflexivity.
    + right. eexists. split; [exact Hr | now rewrite Hd].
    + reflexivity.
    + right. eexists. split; [exact Hr | now rewrite Hd].
    + unfold apply_events. destruct (Nat.ltb 0 (List.length removed));
        discriminate.
    + left. now exists uid.
    + unfold apply_events. destruct (Nat.ltb 0 (List.length removed));
        discriminate.
Qed.


(** C5.  Applying a delta a second time leaves the three collections as the
    first application left them.  The transaction identifiers stay pairwise
    distinct through both applications: no row is duplicated. *)
Theorem apply_twice_is_apply_once (itemId : string)
    (added modified : list Transaction) (removed : list string)
    (cursor : option string) (w w1 w2 : World Agg) :
  applyTransactionUpdates itemId added modified removed cursor w
  = (Ok tt, w1) ->
  applyTransactionUpdates itemId added modified removed cursor w1
  = (Ok tt, w2) ->
  db w2 = db w1
  /\ (NoDup (keys t_transaction_id (transactions (db w))) ->
      NoDup (keys t_transaction_id (transactions (db w1)))
      /\ NoDup (keys t_transaction_id (transactions (db w2)))).
Proof.
  intros H1 H2. apply apply_ok in H1, H2.
  destruct H1 as (uid & Hs & _ & Hs1 & Hd1 & _).
  destruct H2 as (uid' & Hs' & _ & _ & Hd2 & _).
  assert (uid' = uid) by congruence. subst uid'.
  assert (Heq : db w2 = db w1).
  { rewrite Hd2, Hd1. unfold applied. simpl.
    now rewrite update_cursor_idem, upsert_delete_idem. }
  split; [exact Heq|].
  intros Hu. rewrite Heq. rewrite Hd1. unfold applied. simpl.
  split; now apply unique_delete_in, unique_upsert.
Qed.

Lemma last_with_present (R : Type) (key : R -> string) (l : list R) (x : R) :
  In x l -> exists y, last_with key (key x) l = Some y.
Proof.
  intros Hin. destruct (last_with key (key x) l) as [y|] eqn:E; [now exists y|].
  apply last_with_none in E. exfalso. apply E. now apply in_map.
Qed.

Lemma last_with_unique (R : Type) (key : R -> string) (l : list R) (x : R) :
  NoDup (keys key l) -> In x l -> last_with key (key x) l = Some x.
Proof.
  induction l as [|y l IH]; intros Hu Hin; [contradiction|].
  simpl in Hu. inversion Hu as [|? ? Hy Hl]; subst.
  rewrite last_with_cons. destruct Hin as [-> | Hin].
  - assert (E : last_with key (key x) l = None) by now apply last_with_none.
    now rewrite E, has_key_self.
  - now rewrite (IH Hl Hin).
Qed.


(** C9.  Whatever its outcome, an application of a delta leaves alone every
    transaction row whose identifier is in none of the three sets, the
    accounts collection, and, in an item row, everything but the cursor of
    the rows of [itemId]; it sends no delete when [removed] is empty. *)
Theorem apply_footprint (itemId : string)
    (added modified : list Transaction) (removed : list string)
    (cursor : option string) (w w' : World Agg) (r : Result unit) :
  applyTransactionUpdates itemId added modified removed cursor w = (r, w') ->
  (forall k,
     ~ In k (ids (added ++ modified)) -> ~ In k removed ->
     filter (has_key t_transaction_id k) (transactions (db w'))
     = filter (has_key t_transaction_id k) (transactions (db w)))
  /\ Db.accounts (db w') = Db.accounts (db w)
  /\ Forall2 (cursor_write itemId cursor) (items (db w)) (items (db w'))
  /\ (removed = [] ->
      exists evs, trace w' = trace w ++ evs /\ existsb is_delete evs = false).
Proof.
  intros H. apply apply_outcome in H.
  destruct H as (_ & _ & [(_ & _ & ->) | (uid & _ & _ & H)]).
  - repeat split; auto using no_cursor_write.
    intros _. exists []. now rewrite app_nil_r.
  - cbv zeta in H.
    assert (Hup : forall k, ~ In k (ids (added ++ modified)) ->
              filter (has_key t_transaction_id k)
                (upsert t_transaction_id
                   (map (transaction_row uid) (added ++ modified))
                   (transactions (db w)))
              = filter (has_key t_transaction_id k) (transactions (db w))).
    { intros k Hk. apply rows_upsert. now rewrite keys_rows. }
    destruct H as [(e & _ & Hd & Ht) | [(e & _ & Hne & Hd & Ht)
                  | [(e & _ & Hd & Ht) | (_ & Hd & Ht)]]];
      rewrite Hd, Ht; simpl; (split; [|split; [|split]]);
      try reflexivity; auto using no_cursor_write, update_cursor_writes;
      try (intros k Hk1 Hk2; rewrite rows_delete_in by assumption; now auto);
      try (intros Hr; congruence);
      try (intros ->; eexists; split; [reflexivity|]; reflexivity).
Qed.

End ApplyFacts.

(** ** The pagination loop *)

Section SyncFacts.

Context {Agg : Type} {plaidClient : PlaidApi Agg}.

Lemma sync_loop_done (fuel : nat) (tok : string) (v : SyncVars)
    (w : World Agg) :
  v_hasMore v = false -> sync_loop fuel tok v w = (Ok v, w).
Proof. intros H. destruct fuel; simpl; now rewrite H. Qed.

Lemma sync_loop_fetch (fuel : nat) (tok : string) (v : SyncVars)
    (w : World Agg) (p : TransactionsSyncResponse) (a : Agg) :
  v_hasMore v = true ->
  transactionsSync (plaid w) {| access_token := tok; cursor := v_cursor v |}
    = (inr p, a) ->
  sync_loop (S fuel) tok v w
  = sync_loop fuel tok
      {| v_added := v_added v ++ added p;
         v_modified := v_modified v ++ modified p;
         v_removed := v_removed v ++ map removed_transaction_id (removed p);
         v_hasMore := has_more p;
         v_cursor := Some (next_cursor p) |}
      (after_fetches w a
         [EvTransactionsSync {| access_token := tok; cursor := v_cursor v |}
            (inr p)]).
Proof.
  intros Hm Hf. simpl. rewrite Hm.
  unfold bind, call_transactionsSync. now rewrite Hf.
Qed.

Lemma after_fetches_twice (w : World Agg) (a1 a2 : Agg) (e1 e2 : list Event) :
  after_fetches (after_fetches w a1 e1) a2 e2 = after_fetches w a2 (e1 ++ e2).
Proof. unfold after_fetches. simpl. now rewrite app_assoc. Qed.

Lemma after_no_fetch (w : World Agg) : after_fetches w (plaid w) [] = w.
Proof. destruct w. unfold after_fetches. simpl. now rewrite app_nil_r. Qed.

(** The loop on pages that the aggregator serves and of which only the last
    has [has_more = false]. *)
Lemma sync_loop_serves (tok : string) (init : list TransactionsSyncResponse)
    (last : TransactionsSyncResponse) :
  forall (v : SyncVars) (w : World Agg) (a' : Agg) (fuel : nat),
    v_hasMore v = true ->
    serves (plaid w) tok (v_cursor v) (init ++ [last]) a' ->
    forallb has_more init = true ->
    has_more last = false ->
    List.length init < fuel ->
    sync_loop fuel tok v w
    = (Ok {| v_added := v_added v ++ all_added (init ++ [last]);
             v_modified := v_modified v ++ all_modified (init ++ [last]);
             v_removed := v_removed v ++ all_removed (init ++ [last]);
             v_hasMore := false;
             v_cursor := Some (next_cursor last) |},
       after_fetches w a' (sync_events tok (v_cursor v) (init ++ [last]))).
Proof.
  induction init as [|p init IH]; intros v w a' fuel Hm Hs Hinit Hlast Hfuel;
    (destruct fuel as [|fuel]; [simpl in Hfuel; lia|]);
    simpl in Hs; destruct Hs as (a1 & Hf & Hs).
  - subst a'. rewrite (sync_loop_fetch _ _ _ _ Hm Hf).
    rewrite sync_loop_done by exact Hlast.
    unfold all_added, all_modified, all_removed. simpl.
    now rewrite !app_nil_r, Hlast.
  - simpl in Hinit. apply andb_true_iff in Hinit. destruct Hinit as [Hp Hinit].
    rewrite (sync_loop_fetch _ _ _ _ Hm Hf).
    rewrite (IH _ _ a' fuel); simpl; auto; [|simpl in Hfuel; lia].
    rewrite after_fetches_twice.
    unfold all_added, all_modified, all_removed. simpl.
    now rewrite !app_assoc.
Qed.

(** The loop after [length ps] pages that all have [has_more = true]: it
    has fetched them all and has not ended. *)
Lemma sync_loop_goes_on (tok : string) (ps : list TransactionsSyncResponse) :
  forall (v : SyncVars) (w : World Agg) (a' : Agg),
    v_hasMore v = true ->
    serves (plaid w) tok (v_cursor v) ps a' ->
    forallb has_more ps = true ->
    sync_loop (List.length ps) tok v w
    = (Diverge, after_fetches w a' (sync_events tok (v_cursor v) ps)).
Proof.
  induction ps as [|p ps IH]; intros v w a' Hm Hs Hps; simpl in Hs.
  - subst a'. simpl. rewrite Hm. now rewrite after_no_fetch.
  - destruct Hs as (a1 & Hf & Hs).
    simpl in Hps. apply andb_true_iff in Hps. destruct Hps as [Hp Hps].
    simpl List.length. rewrite (sync_loop_fetch _ _ _ _ Hm Hf).
    rewrite (IH _ _ a'); simpl; auto.
    now rewrite after_fetches_twice.
Qed.

(** The loop only talks to the aggregator, and a fetch that throws ends it
    with this throw. *)
Lemma sync_loop_trace (tok : string) (fuel : nat) :
  forall (v : SyncVars) (w w' : World Agg) (r : Result SyncVars),
    sync_loop fuel tok v w = (r, w') ->
    session w' = session w /\ db w' = db w /\ faults w' = faults w
    /\ exists evs,
         trace w' = trace w ++ evs
         /\ forallb writes_nothing evs = true
         /\ (existsb is_failed_fetch evs = true -> exists e, r = Throw e).
Proof.
  induction fuel as [|fuel IH]; intros v w w' r H; simpl in H;
    destruct (v_hasMore v).
  - inversion H; subst. repeat split. exists []. rewrite app_nil_r.
    repeat split. discriminate.
  - inversion H; subst. repeat split. exists []. rewrite app_nil_r.
    repeat split. discriminate.
  - unfold bind, call_transactionsSync in H.
    destruct (transactionsSync (plaid w)
                {| access_token := tok; cursor := v_cursor v |})
      as [[e | p] a] eqn:Hf.
    + inversion H; subst; simpl. repeat split. eexists. split; [reflexivity|].
      split; [reflexivity|]. intros _. now exists e.
    + apply IH in H. simpl in H.
      destruct H as (Hs & Hd & Hfa & evs & Ht & Hw & Hfail).
      repeat split; auto. eexists. rewrite Ht, <- app_assoc.
      split; [reflexivity|]. split; [exact Hw | exact Hfail].
  - inversion H; subst. repeat split. exists []. rewrite app_nil_r.
    repeat split. discriminate.
Qed.

Lemma select_cursor_run (itemId : string) (w : World Agg) :
  select_cursor itemId w
  = (Ok (match hd None (faults w) with
         | None => cursor_of_item itemId (db w)
         | Some _ => None
         end),
     after_select itemId w).
Proof.
  unfold select_cursor, store, after_select.
  destruct (hd None (faults w)); reflexivity.
Qed.

Lemma sync_after_select (fuel : nat) (tok itemId : string) (w : World Agg) :
  syncTransactions fuel tok itemId w
  = sync_from fuel tok itemId (starting_cursor itemId w)
      (after_select itemId w).
Proof.
  unfold syncTransactions, bind at 1. rewrite select_cursor_run. reflexivity.
Qed.

Lemma sync_from_loop_ok (fuel : nat) (tok itemId : string) (c : option string)
    (w w2 : World Agg) (v : SyncVars) :
  sync_loop fuel tok (initial_vars c) w = (Ok v, w2) ->
  sync_from fuel tok itemId c w = apply_and_report itemId v w2.
Proof.
  intros H. unfold sync_from, apply_and_report, try_catch, bind at 1.
  now rewrite H.
Qed.

Lemma sync_from_loop_throw (fuel : nat) (tok itemId : string)
    (c : option string) (w w2 : World Agg) (e : string) :
  sync_loop fuel tok (initial_vars c) w = (Throw e, w2) ->
  sync_from fuel tok itemId c w
  = (Throw SyncFailed,
     emit (EvConsoleError "Error syncing transactions:" e) w2).
Proof.
  intros H. unfold sync_from, try_catch, bind at 1. now rewrite H.
Qed.

Lemma sync_from_loop_diverge (fuel : nat) (tok itemId : string)
    (c : option string) (w w2 : World Agg) :
  sync_loop fuel tok (initial_vars c) w = (Diverge, w2) ->
  sync_from fuel tok itemId c w = (Diverge, w2).
Proof.
  intros H. unfold sync_from, try_catch, bind at 1. now rewrite H.
Qed.

(** The application of a delta only talks to the store. *)
Lemma apply_trace (itemId : string) (added modified : list Transaction)
    (removed : list string) (cursor : option string) (w w' : World Agg)
    (r : Result unit) :
  applyTransactionUpdates itemId added modified removed cursor w = (r, w') ->
  exists evs, trace w' = trace w ++ evs /\ forallb is_store evs = true.
Proof.
  intros H. apply apply_outcome in H.
  destruct H as (_ & _ & [(_ & _ & ->) | (uid & _ & _ & H)]).
  - exists []. now rewrite app_nil_r.
  - cbv zeta in H. unfold apply_events in H.
    destruct H as [(e & _ & _ & Ht) | [(e & _ & _ & _ & Ht)
                  | [(e & _ & _ & Ht) | (_ & _ & Ht)]]];
      eexists; (split; [exact Ht|]);
      destruct (Nat.ltb 0 (List.length removed)); reflexivity.
Qed.

(** What [syncTransactions] does after its loop: the application, then the
    acknowledgement or the [SyncFailed] error. *)
Lemma apply_and_report_run (itemId : string) (v : SyncVars) (w w' : World Agg)
    (r : Result string) :
  apply_and_report itemId v w = (r, w') ->
  exists (r1 : Result unit) (w1 : World Agg),
    applyTransactionUpdates itemId
      (v_added v) (v_modified v) (v_removed v) (v_cursor v) w = (r1, w1)
    /\ ((r1 = Ok tt /\ r = Ok "Transactions synced successfully" /\ w' = w1)
        \/ exists e, r1 = Throw e /\ r = Throw SyncFailed
             /\ w' = emit (EvConsoleError "Error syncing transactions:" e) w1).
Proof.
  unfold apply_and_report, try_catch, bind at 1.
  destruct (applyTransactionUpdates itemId (v_added v) (v_modified v)
              (v_removed v) (v_cursor v) w) as [r1 w1] eqn:Ha.
  intros H. exists r1, w1. split; [reflexivity|].
  destruct r1 as [[]|e|].
  - left. inversion H. auto.
  - right. exists e. inversion H. auto.
  - exfalso. apply apply_outcome in Ha.
    destruct Ha as (_ & _ & [(Hr & _) | (uid & _ & _ & Ha)]); [discriminate|].
    cbv zeta in Ha.
    destruct Ha as [(e & Hr & _) | [(e & Hr & _) | [(e & Hr & _) | (Hr & _)]]];
      discriminate.
Qed.

Lemma store_events_no_fetch (evs : list Event) :
  forallb is_store evs = true -> existsb is_failed_fetch evs = false.
Proof.
  induction evs as [|e evs IH]; [reflexivity|]. simpl.
  intros [He Hevs]%andb_true_iff. rewrite (IH Hevs).
  destruct e; try discriminate. reflexivity.
Qed.

(** C1.  When the aggregator serves a sequence of pages of which only the
    last has [has_more = false], the loop of [syncTransactions] ends with
    the concatenation, page after page, of what the pages add, modify and
    remove (the removed ones as identifiers), and with the last page's
    [next_cursor]; these are the delta and the cursor [syncTransactions]
    applies, and when it returns the cursor of the item is this cursor. *)
Theorem sync_accumulates_pages (tok itemId : string) (w : World Agg)
    (init : list TransactionsSyncResponse) (last : TransactionsSyncResponse)
    (a' : Agg) (fuel : nat) :
  let c0 := starting_cursor itemId w in
  let ps := init ++ [last] in
  let v := {| v_added := all_added ps;
              v_modified := all_modified ps;
              v_removed := all_removed ps;
              v_hasMore := false;
              v_cursor := Some (next_cursor last) |} in
  let w2 := after_fetches (after_select itemId w) a' (sync_events tok c0 ps) in
  serves (plaid w) tok c0 ps a' ->
  forallb has_more init = true ->
  has_more last = false ->
  List.length init < fuel ->
  sync_loop fuel tok (initial_vars c0) (after_select itemId w) = (Ok v, w2)
  /\ syncTransactions fuel tok itemId w = apply_and_report itemId v w2
  /\ (forall msg w',
        syncTransactions fuel tok itemId w = (Ok msg, w') ->
        exists userId,
          session w = Some userId
          /\ db w' = applied userId itemId (all_added ps) (all_modified ps)
                       (all_removed ps) (Some (next_cursor last)) (db w)).
Proof.
  intros c0 ps v w2 Hs Hinit Hlast Hfuel.
  assert (Hloop : sync_loop fuel tok (initial_vars c0) (after_select itemId w)
                  = (Ok v, w2)).
  { now rewrite (sync_loop_serves tok init last (initial_vars c0)
                   (after_select itemId w) a' eq_refl Hs Hinit Hlast Hfuel). }
  assert (Hsync : syncTransactions fuel tok itemId w
                  = apply_and_report itemId v w2).
  { rewrite sync_after_select. now apply sync_from_loop_ok. }
  split; [exact Hloop|]. split; [exact Hsync|].
  intros msg w' H. rewrite Hsync in H.
  apply apply_and_report_run in H.
  destruct H as (r1 & w1 & Ha & [(-> & _ & ->) | (e & _ & Hr & _)]);
    [|discriminate].
  apply apply_ok in Ha. destruct Ha as (uid & Hu & _ & _ & Hd & _).
  exists uid. split; [exact Hu | exact Hd].
Qed.

(** C3.  When a page fetch throws during [syncTransactions], the caller gets
    the [SyncFailed] error, the database (transactions, items with their
    cursors, accounts) is as it was, and no statement that writes was sent
    to the store. *)
Theorem fetch_error_aborts_sync (fuel : nat) (tok itemId : string)
    (w w' : World Agg) (r : Result string) (evs : list Event) :
  syncTransactions fuel tok itemId w = (r, w') ->
  trace w' = trace w ++ evs ->
  existsb is_failed_fetch evs = true ->
  r = Throw SyncFailed /\ db w' = db w /\ forallb writes_nothing evs = true.
Proof.
  intros H Ht Hfail. rewrite sync_after_select in H.
  destruct (sync_loop fuel tok (initial_vars (starting_cursor itemId w))
              (after_select itemId w)) as [rl w2] eqn:Hl.
  destruct (sync_loop_trace _ _ _ _ Hl)
    as (_ & Hd & _ & evl & Htl & Hwl & Hfl).
  simpl in Hd, Htl. destruct rl as [v|e|].
  - exfalso. erewrite sync_from_loop_ok in H by exact Hl.
    apply apply_and_report_run in H. destruct H as (r1 & w1 & Ha & H).
    apply apply_trace in Ha. destruct Ha as (eva & Hta & Hsa).
    assert (Hno : existsb is_failed_fetch evl = false).
    { destruct (existsb is_failed_fetch evl); [|reflexivity].
      destruct (Hfl eq_refl) as [e He]. discriminate. }
    apply store_events_no_fetch in Hsa.
    destruct H as [(_ & _ & ->) | (e & _ & _ & ->)];
      [|unfold emit in Ht; simpl in Ht];
      rewrite Hta, Htl, <- !app_assoc in Ht; apply app_inv_head in Ht;
      subst evs; simpl in Hfail;
      rewrite !existsb_app, Hno, Hsa in Hfail; discriminate.
  - erewrite sync_from_loop_throw in H by exact Hl. inversion H; subst.
    split; [reflexivity|]. split; [exact Hd|].
    simpl in Ht. rewrite Htl, <- !app_assoc in Ht. apply app_inv_head in Ht.
    subst evs. simpl. now rewrite forallb_app, Hwl.
  - exfalso. erewrite sync_from_loop_diverge in H by exact Hl. inversion H; subst.
    rewrite Htl, <- !app_assoc in Ht. apply app_inv_head in Ht. subst evs.
    simpl in Hfail. destruct (Hfl Hfail) as [e He]. discriminate.
Qed.

(** C8.  Entered with [hasMore = true], the loop ends as soon as the
    aggregator has served a page with [has_more = false], after exactly the
    fetches that lead to it, however many they are; and as long as the
    pages served have [has_more = true] it goes on fetching: after any
    number of such pages it has fetched them all and has not ended. *)
Theorem sync_loop_terminates_with_the_stream (tok : string) (v : SyncVars)
    (w : World Agg) :
  v_hasMore v = true ->
  (forall init last a' fuel,
     serves (plaid w) tok (v_cursor v) (init ++ [last]) a' ->
     forallb has_more init = true ->
     has_more last = false ->
     List.length init < fuel ->
     exists v',
       sync_loop fuel tok v w
       = (Ok v', after_fetches w a'
                   (sync_events tok (v_cursor v) (init ++ [last])))
       /\ v_hasMore v' = false)
  /\ (forall ps a',
        serves (plaid w) tok (v_cursor v) ps a' ->
        forallb has_more ps = true ->
        sync_loop (List.length ps) tok v w
        = (Diverge, after_fetches w a' (sync_events tok (v_cursor v) ps))).
Proof.
  intros Hm. split.
  - intros init last a' fuel Hs Hinit Hlast Hfuel.
    rewrite (sync_loop_serves tok init last v w a' Hm Hs Hinit Hlast Hfuel).
    eexists. split; reflexivity.
  - intros ps a' Hs Hps. now apply sync_loop_goes_on.
Qed.

(** With a session and a store that refuses nothing, the application of a
    delta succeeds. *)
Lemma apply_no_faults (itemId : string) (added modified : list Transaction)
    (removed : list string) (cursor : option string) (w : World Agg)
    (userId : string) :
  session w = Some userId ->
  userId <> "" ->
  faults w = [] ->
  applyTransactionUpdates itemId added modified removed cursor w
  = (Ok tt,
     {| plaid := plaid w;
        session := session w;
        db := applied userId itemId added modified removed cursor (db w);
        faults := [];
        trace := trace w
          ++ apply_events userId itemId added modified removed cursor |}).
Proof.
  destruct w as [a s d f tr]. simpl. intros -> Hne ->.
  apply String.eqb_neq in Hne.
  unfold applyTransactionUpdates, getUserId, auth_getUser, bind, store,
    throw_if, ret, applied, apply_events.
  simpl. rewrite Hne. simpl.
  destruct removed as [|k ks]; simpl.
  - now rewrite delete_in_nil, <- app_assoc.
  - now rewrite <- !app_assoc.
Qed.

Lemma no_row_of_item (itemId : string) (d : Database) :
  rows_of_item itemId d = [] ->
  forall r, In r (items d) -> i_item_id r <> itemId.
Proof.
  unfold rows_of_item. intros H r Hr Heq.
  assert (Hin : In r (filter (fun r => String.eqb (i_item_id r) itemId) (items d))).
  { apply filter_In. split; [assumption | now apply String.eqb_eq]. }
  rewrite H in Hin. contradiction.
Qed.

(** C10.  When the item has no row, or its one row has no cursor or the
    empty string for cursor, [syncTransactions] goes on from the cursor
    [null]; with pages that end, a session and a store that refuses nothing,
    it returns its acknowledgement after a cursor commit answered without an
    error, which changes no item row when the item has none. *)
Theorem sync_without_stored_cursor (fuel : nat) (tok itemId : string)
    (w : World Agg) :
  rows_of_item itemId (db w) = []
  \/ (exists r, rows_of_item itemId (db w) = [r]
                /\ (i_cursor r = None \/ i_cursor r = Some "")) ->
  syncTransactions fuel tok itemId w
  = sync_from fuel tok itemId None (after_select itemId w)
  /\ (forall init last a' userId,
        serves (plaid w) tok None (init ++ [last]) a' ->
        forallb has_more init = true ->
        has_more last = false ->
        List.length init < fuel ->
        session w = Some userId ->
        userId <> "" ->
        faults w = [] ->
        exists w',
          syncTransactions fuel tok itemId w
          = (Ok "Transactions synced successfully", w')
          /\ trace w'
             = trace w
               ++ EvStore (SelectCursor itemId) None
               :: sync_events tok None (init ++ [last])
               ++ apply_events userId itemId
                    (all_added (init ++ [last])) (all_modified (init ++ [last]))
                    (all_removed (init ++ [last])) (Some (next_cursor last))
          /\ (rows_of_item itemId (db w) = [] ->
              items (db w') = items (db w))).
Proof.
  intros Hrow.
  assert (Hc : starting_cursor itemId w = None).
  { unfold starting_cursor, cursor_of_item. fold (rows_of_item itemId (db w)).
    destruct (hd None (faults w)); [reflexivity|].
    destruct Hrow as [-> | (r & -> & [Hr | Hr])]; simpl;
      try rewrite Hr; reflexivity. }
  assert (Hsync : syncTransactions fuel tok itemId w
                  = sync_from fuel tok itemId None (after_select itemId w)).
  { now rewrite sync_after_select, Hc. }
  split; [exact Hsync|].
  intros init last a' userId Hs Hinit Hlast Hfuel Hu Hne Hf.
  rewrite Hsync.
  erewrite sync_from_loop_ok
    by (apply (sync_loop_serves tok init last (initial_vars None)
                 (after_select itemId w) a' eq_refl Hs Hinit Hlast Hfuel)).
  unfold apply_and_report, try_catch, bind at 1.
  rewrite (apply_no_faults _ _ _ _ _ _ (userId := userId)); simpl; auto;
    [|now rewrite Hf].
  unfold bind, ret. simpl. eexists. split; [reflexivity|]. simpl.
  rewrite Hf. simpl. split.
  - now rewrite <- !app_assoc.
  - intros Hno. apply update_cursor_absent. now apply no_row_of_item.
Qed.

End SyncFacts.

(** ** The refresh of the accounts *)

Section AccountFacts.

Context {Agg : Type} {plaidClient : PlaidApi Agg}.

Lemma last_with_account_rows (userId k : string) (item : UpdatedItem)
    (l : list AccountBase) :
  last_with a_account_id k (map (account_row userId item) l)
  = option_map (account_row userId item) (last_with acc_account_id k l).
Proof.
  induction l as [|t l IH]; [reflexivity|].
  simpl map. rewrite !last_with_cons, IH.
  destruct (last_with acc_account_id k l); [reflexivity|].
  unfold has_key. simpl. now destruct (String.eqb (acc_account_id t) k).
Qed.

(** C7.  When the aggregator gives a snapshot, with a session and a store
    that executes the statement, [fetchAndStoreAccounts] sends one upsert,
    on the account identifier, of one row per account of the snapshot, each
    carrying, column by column, the fields of its account, the user and the
    identifiers of the item, with the institution name of the item, or
    'Unknown Institution' when the item has none (or an empty one);
    afterwards the identifier of an account of the snapshot selects a row
    that carries the fields of this account (of the last account with this
    identifier, should the snapshot have several). *)
Theorem accounts_refresh_upserts_snapshot (tok : string) (w : World Agg)
    (data : AccountsGetResponse) (a' : Agg) (userId : string) :
  accountsGet (plaid w) tok = (inr data, a') ->
  session w = Some userId ->
  userId <> "" ->
  hd None (faults w) = None ->
  let rows := map (account_row userId (item data)) (Plaid.accounts data) in
  let d' := run_statement (UpsertAccounts rows) (db w) in
  fetchAndStoreAccounts tok w
  = (Ok "Successfully stored accounts",
     {| plaid := a'; session := session w; db := d';
        faults := tl (faults w);
        trace := trace w ++ [EvAccountsGet tok (inr data);
                              EvStore (UpsertAccounts rows) None] |})
  /\ List.length rows = List.length (Plaid.accounts data)
  /\ Forall2 (account_fields userId (item data)) (Plaid.accounts data) rows
  /\ (forall account,
        In account (Plaid.accounts data) ->
        exists account' row,
          last_with acc_account_id (acc_account_id account)
            (Plaid.accounts data) = Some account'
          /\ lookup a_account_id (acc_account_id account) (Db.accounts d')
             = Some row
          /\ row = account_row userId (item data) account'
          /\ account_fields userId (item data) account' row
          /\ a_account_id row = acc_account_id account
          /\ (NoDup (map acc_account_id (Plaid.accounts data)) ->
              account' = account))
  /\ (forall row,
        In row rows ->
        a_institution_name row
        = match institution_name (item data) with
          | Some n => if String.eqb n "" then "Unknown Institution" else n
          | None => "Unknown Institution"
          end)
  /\ items d' = items (db w) /\ transactions d' = transactions (db w).
Proof.
  intros Hget Hu Hne Hf rows d'.
  assert (Hfields : forall account,
            account_fields userId (item data) account
              (account_row userId (item data) account)).
  { intros account. unfold account_fields, account_row. simpl.
    unfold institution_name_or_unknown. repeat split. }
  split; [|split; [|split; [|split; [|split]]]].
  - destruct w as [a s d f tr]. simpl in *. subst s.
    apply String.eqb_neq in Hne.
    unfold fetchAndStoreAccounts, try_catch, bind, call_accountsGet,
      storePlaidAccounts, getUserId, auth_getUser, bind, store, throw_if, ret.
    simpl. rewrite Hget. simpl. rewrite Hne. simpl. rewrite Hf.
    simpl. now rewrite <- app_assoc.
  - unfold rows. apply length_map.
  - unfold rows. induction (Plaid.accounts data) as [|account l IH]; simpl;
      constructor; [apply Hfields | exact IH].
  - intros account Hin.
    destruct (last_with_present acc_account_id _ _ Hin) as [account' Ha].
    exists account', (account_row userId (item data) account').
    split; [exact Ha|]. split; [|split; [|split; [|split]]].
    + unfold d', rows. simpl.
      now rewrite lookup_upsert, last_with_account_rows, Ha.
    + reflexivity.
    + apply Hfields.
    + simpl. now apply last_with_some in Ha.
    + intros Hnd. rewrite (last_with_unique acc_account_id _ _ Hnd Hin) in Ha.
      congruence.
  - intros row [account [<- _]]%in_map_iff. reflexivity.
  - split; reflexivity.
Qed.

End AccountFacts.

(** ** The scenarios, run *)

(** The two-page scenario of section 8: the delta is [T1; T2] added and
    [T1] removed, the cursor ["c2"]. *)
Lemma sync_accumulates_pages_witness :
  let w := sample_world [sample_item_row None] [inr page1; inr page2] [] in
  serves (plaid w) "access-sandbox" None [page1; page2] script_end
  /\ sync_loop 5 "access-sandbox" (initial_vars None) (after_select "item-1" w)
     = (Ok {| v_added := [T1; T2]; v_modified := [];
              v_removed := ["T1"]; v_hasMore := false;
              v_cursor := Some "c2" |},
        after_fetches (after_select "item-1" w) script_end
          (sync_events "access-sandbox" None [page1; page2])).
Proof.
  intros w.
  assert (Hs : serves (plaid w) "access-sandbox" None [page1; page2] script_end).
  { simpl. eexists. split; [reflexivity|]. eexists. split; reflexivity. }
  split; [exact Hs|].
  destruct (@sync_accumulates_pages Script scripted "access-sandbox" "item-1"
              w [page1] page2 script_end 5)
    as (H & _); [exact Hs | reflexivity | reflexivity | simpl; lia | exact H].
Defined.

(** The delete is refused after the upsert went through: the operation
    fails and the cursor stays ["c0"]. *)
Lemma apply_commits_cursor_only_on_success_witness :
  let w := sample_world [sample_item_row (Some "c0")] []
             [None; Some "deadlock detected"] in
  let run := applyTransactionUpdates "item-1" [T1] [] ["T0"] (Some "c1") w in
  fst run = Throw "Error deleting transactions: deadlock detected"
  /\ exists evs,
       trace (snd run) = trace w ++ evs
       /\ ((exists userId,
              fst run = Ok tt
              /\ evs = apply_events userId "item-1" [T1] [] ["T0"] (Some "c1")
              /\ db (snd run)
                 = applied userId "item-1" [T1] [] ["T0"] (Some "c1") (db w))
           \/ (exists e, fst run = Throw e
                         /\ items (db (snd run)) = items (db w)))
       /\ (existsb is_failed_merge evs = true ->
           existsb is_cursor_update evs = false).
Proof.
  intros w run. split; [reflexivity|].
  apply (@apply_commits_cursor_only_on_success Script "item-1"
           [T1] [] ["T0"] (Some "c1") w (snd run) (fst run)).
  reflexivity.
Defined.


Lemma apply_twice_is_apply_once_witness :
  let w := sample_world [sample_item_row None] [] [] in
  let w1 := snd (applyTransactionUpdates "item-1" [T1; T2] [T1_modified]
                   ["T2"] (Some "c2") w) in
  let w2 := snd (applyTransactionUpdates "item-1" [T1; T2] [T1_modified]
                   ["T2"] (Some "c2") w1) in
  db w2 = db w1
  /\ (NoDup (keys t_transaction_id (transactions (db w))) ->
      NoDup (keys t_transaction_id (transactions (db w1)))
      /\ NoDup (keys t_transaction_id (transactions (db w2)))).
Proof.
  intros w w1 w2.
  apply (@apply_twice_is_apply_once Script "item-1" [T1; T2]
           [T1_modified] ["T2"] (Some "c2") w w1 w2); reflexivity.
Defined.


Lemma apply_footprint_witness :
  let w := sample_world [sample_item_row None] [] [None; None] in
  let run := applyTransactionUpdates "item-1" [T1] [] [] (Some "c1") w in
  (forall k,
     ~ In k (ids ([T1] ++ [])) -> ~ In k [] ->
     filter (has_key t_transaction_id k) (transactions (db (snd run)))
     = filter (has_key t_transaction_id k) (transactions (db w)))
  /\ Db.accounts (db (snd run)) = Db.accounts (db w)
  /\ Forall2 (cursor_write "item-1" (Some "c1"))
       (items (db w)) (items (db (snd run)))
  /\ (@nil string = [] ->
      exists evs,
        trace (snd run) = trace w ++ evs /\ existsb is_delete evs = false).
Proof.
  intros w run.
  apply (@apply_footprint Script "item-1" [T1] [] [] (Some "c1") w
           (snd run) (fst run)).
  reflexivity.
Defined.

(** The scenario of section 8 in which the second fetch throws. *)
Lemma fetch_error_aborts_sync_witness :
  let w := sample_world [sample_item_row (Some "c0")]
             [inr page1; inl "RATE_LIMIT_EXCEEDED"] [] in
  let run := syncTransactions 5 "access-sandbox" "item-1" w in
  existsb is_failed_fetch (trace (snd run)) = true
  /\ fst run = Throw SyncFailed
  /\ db (snd run) = db w
  /\ forallb writes_nothing (trace (snd run)) = true.
Proof.
  intros w run. split; [reflexivity|].
  apply (@fetch_error_aborts_sync Script scripted 5 "access-sandbox" "item-1"
           w (snd run) (fst run) (trace (snd run)));
    reflexivity.
Defined.

(** Two pages then the end: the loop ends after two fetches; and after the
    one page with [has_more = true] it has not ended. *)
Lemma sync_loop_terminates_with_the_stream_witness :
  let w := sample_world [] [inr page1; inr page2] [] in
  (exists v',
     sync_loop 2 "access-sandbox" (initial_vars None) w
     = (Ok v', after_fetches w script_end
                 (sync_events "access-sandbox" None [page1; page2]))
     /\ v_hasMore v' = false)
  /\ sync_loop 1 "access-sandbox" (initial_vars None) w
     = (Diverge,
        after_fetches w {| replies := [inr page2];
                           snapshot := inr sample_snapshot |}
          (sync_events "access-sandbox" None [page1])).
Proof.
  intros w.
  destruct (@sync_loop_terminates_with_the_stream Script scripted
              "access-sandbox" (initial_vars None) w eq_refl)
    as (Hends & Hgoes).
  split.
  - apply (Hends [page1] page2 script_end 2);
      [ simpl; eexists; split; [reflexivity|]; eexists; split; reflexivity
      | reflexivity | reflexivity | simpl; lia ].
  - apply (Hgoes [page1]); [|reflexivity].
    simpl. eexists. split; reflexivity.
Defined.

(** The item has no row: the sync starts from [null], succeeds, and its
    cursor commit changes no row. *)
Lemma sync_without_stored_cursor_witness :
  let w := sample_world [] [inr page1; inr page2] [] in
  rows_of_item "item-1" (db w) = []
  /\ syncTransactions 5 "access-sandbox" "item-1" w
     = sync_from 5 "access-sandbox" "item-1" None (after_select "item-1" w)
  /\ exists w',
       syncTransactions 5 "access-sandbox" "item-1" w
       = (Ok "Transactions synced successfully", w')
       /\ items (db w') = items (db w).
Proof.
  intros w.
  destruct (@sync_without_stored_cursor Script scripted 5 "access-sandbox"
              "item-1" w)
    as (Hnull & Hrun); [now left|].
  split; [reflexivity|]. split; [exact Hnull|].
  destruct (Hrun [page1] page2 script_end "user-1")
    as (w' & Hok & _ & Hitems);
    [ simpl; eexists; split; [reflexivity|]; eexists; split; reflexivity
    | reflexivity | reflexivity | simpl; lia | reflexivity | discriminate
    | reflexivity | ].
  exists w'. split; [exact Hok | now apply Hitems].
Defined.

(** The snapshot has two accounts and its item no institution name. *)
Lemma accounts_refresh_upserts_snapshot_witness :
  let w := sample_world [] [] [] in
  let run := fetchAndStoreAccounts "access-sandbox" w in
  fst run = Ok "Successfully stored accounts"
  /\ map a_account_id (Db.accounts (db (snd run))) = ["acc-1"; "acc-2"]
  /\ map a_institution_name (Db.accounts (db (snd run)))
     = ["Unknown Institution"; "Unknown Institution"].
Proof.
  intros w run.
  destruct (@accounts_refresh_upserts_snapshot Script scripted
              "access-sandbox" w sample_snapshot (plaid w) "user-1")
    as (Hrun & _); [reflexivity | reflexivity | discriminate | reflexivity |].
  unfold run. rewrite Hrun. repeat split.
Defined.

(** On the endless aggregator the loop never ends: whatever the fuel, it
    is used up. *)
Lemma endless_serves (tok : string) (n : nat) :
  forall c, serves tt tok c (repeat endless_page n) tt.
Proof.
  induction n as [|n IH]; intros c; simpl; [reflexivity|].
  exists tt. split; [reflexivity | apply IH].
Qed.

Lemma sync_loop_endless (fuel : nat) (tok : string) (v : SyncVars)
    (w : World unit) :
  v_hasMore v = true -> fst (sync_loop fuel tok v w) = Diverge.
Proof.
  intros Hm.
  assert (Hall : forallb has_more (repeat endless_page fuel) = true)
    by (induction fuel; simpl; auto).
  assert (Hs : serves (plaid w) tok (v_cursor v) (repeat endless_page fuel) tt)
    by (destruct (plaid w); apply endless_serves).
  pose proof (sync_loop_goes_on tok (repeat endless_page fuel) v w tt
                Hm Hs Hall) as H.
  rewrite repeat_length in H. now rewrite H.
Qed.

(** * Further properties *)

(** ** Lookups and deletions *)

Section MoreTableFacts.

Variable R : Type.
Variable key : R -> string.

Lemma lookup_delete_in (ks : list string) (t : list R) (k : string) :
  lookup key k (delete_in key ks t)
  = if mem k ks then None else lookup key k t.
Proof.
  unfold lookup, delete_in. induction t as [|x t IH]; simpl.
  - now destruct (mem k ks).
  - destruct (has_key key k x) eqn:Ex.
    + apply has_key_true in Ex. rewrite Ex.
      destruct (mem k ks) eqn:Em; simpl.
      * exact IH.
      * unfold has_key at 1. now rewrite Ex, String.eqb_refl.
    + destruct (negb (mem (key x) ks)); simpl; [rewrite Ex|]; exact IH.
Qed.

(** A row found in a table is found in any selection that keeps it. *)
Lemma lookup_filter (q : R -> bool) (t : list R) (k : string) (x : R) :
  lookup key k t = Some x -> q x = true ->
  lookup key k (filter q t) = Some x.
Proof.
  unfold lookup. induction t as [|y t IH]; simpl; [discriminate|].
  intros H Hq. destruct (has_key key k y) eqn:Ey.
  - inversion H; subst. rewrite Hq. simpl. now rewrite Ey.
  - destruct (q y); simpl; [rewrite Ey|]; now apply IH.
Qed.

Lemma upsert_nil (t : list R) : upsert key [] t = t.
Proof. reflexivity. Qed.

End MoreTableFacts.

(** ** The application of a delta, further *)

Section MoreApplyFacts.

Context {Agg : Type}.

Lemma no_user_found (w : World Agg) :
  session w = None \/ session w = Some "" ->
  getUserId w = (Throw "User not found", w).
Proof.
  unfold getUserId, auth_getUser, bind, throw.
  intros [-> | ->]; reflexivity.
Qed.

Lemma user_found (w : World Agg) (userId : string) :
  session w = Some userId -> userId <> "" -> getUserId w = (Ok userId, w).
Proof.
  unfold getUserId, auth_getUser, bind, ret. intros -> Hne.
  apply String.eqb_neq in Hne. now rewrite Hne.
Qed.

Lemma reads_need_a_user (w : World Agg) :
  session w = None \/ session w = Some "" ->
  fetchAccounts w = (Throw "User not found", w)
  /\ fetchTransactions w = (Throw "User not found", w).
Proof.
  intros H. apply no_user_found in H.
  unfold fetchAccounts, fetchTransactions, bind. rewrite H. now split.
Qed.

(** X1.  Without a user that the session resolves (none, or one with an
    empty identifier), each of the five server actions that reads or writes
    the store throws 'User not found' before any request to the store: the
    world is as it was. *)
Theorem store_actions_need_a_user (w : World Agg) :
  session w = None \/ session w = Some "" ->
  (forall itemId added modified removed cursor,
     applyTransactionUpdates itemId added modified removed cursor w
     = (Throw "User not found", w))
  /\ (forall accounts item,
        storePlaidAccounts accounts item w = (Throw "User not found", w))
  /\ (forall accessToken item,
        storePlaidItem accessToken item w = (Throw "User not found", w))
  /\ fetchAccounts w = (Throw "User not found", w)
  /\ fetchTransactions w = (Throw "User not found", w).
Proof.
  intros H. apply no_user_found in H.
  unfold applyTransactionUpdates, storePlaidAccounts, storePlaidItem,
    fetchAccounts, fetchTransactions, bind.
  rewrite H. repeat split.
Qed.

Lemma apply_failure (itemId : string) (added modified : list Transaction)
    (removed : list string) (cursor : option string) (w w' : World Agg)
    (e : string) :
  applyTransactionUpdates itemId added modified removed cursor w
  = (Throw e, w') ->
  session w' = session w
  /\ items (db w') = items (db w)
  /\ Db.accounts (db w') = Db.accounts (db w)
  /\ (session w = None \/ session w = Some ""
      \/ exists userId,
           session w = Some userId
           /\ let rows := map (transaction_row userId) (added ++ modified) in
              (transactions (db w') = transactions (db w)
               \/ transactions (db w')
                  = upsert t_transaction_id rows (transactions (db w))
               \/ transactions (db w')
                  = delete_in t_transaction_id removed
                      (upsert t_transaction_id rows (transactions (db w))))).
Proof.
  intros H. apply apply_outcome in H.
  destruct H as (_ & Hs & [(_ & Hn & ->) | (uid & Hu & _ & H)]).
  - repeat split; auto. destruct Hn; auto.
  - split; [exact Hs|]. cbv zeta in H.
    destruct H as [(e1 & _ & Hd & _) | [(e1 & _ & _ & Hd & _)
                  | [(e1 & _ & Hd & _) | (Hr & _)]]];
      try discriminate; rewrite Hd; simpl; repeat split;
      right; right; exists uid; (split; [exact Hu|]); cbv zeta; auto.
Qed.

(** X4.  When the store executes the upsert of a delta and refuses its
    delete, the application throws the error of the delete and leaves the
    store half-way: every transaction of [added] and [modified] has a row,
    those of [removed] too, and the items are as they were. *)
Theorem refused_delete_leaves_the_upsert (itemId : string)
    (added modified : list Transaction) (removed : list string)
    (cursor : option string) (w : World Agg) (userId e : string)
    (rest : list (option string)) :
  session w = Some userId ->
  userId <> "" ->
  removed <> [] ->
  faults w = None :: Some e :: rest ->
  exists w',
    applyTransactionUpdates itemId added modified removed cursor w
    = (Throw (String.append "Error deleting transactions: " e), w')
    /\ transactions (db w') = upserted userId added modified (db w)
    /\ items (db w') = items (db w)
    /\ faults w' = rest
    /\ forall t, In t (added ++ modified) ->
         In (transaction_id t) (keys t_transaction_id (transactions (db w'))).
Proof.
  destruct w as [a s d f tr]. simpl. intros -> Hne Hrem ->.
  apply String.eqb_neq in Hne.
  unfold applyTransactionUpdates, getUserId, auth_getUser, bind, store,
    throw_if, throw, ret, upserted.
  simpl. rewrite Hne. simpl.
  destruct removed as [|k ks]; [congruence|]. simpl.
  eexists. split; [reflexivity|]. simpl. repeat split.
  intros t Ht. apply present_upsert. right.
  unfold keys. rewrite map_map. simpl. now apply in_map.
Qed.

(** X5.  A failed application of a delta followed by a successful
    application of the same delta leaves the database that one successful
    application would have left: the retry repairs whatever the failed
    attempt had written. *)
Theorem retry_after_failure_converges (itemId : string)
    (added modified : list Transaction) (removed : list string)
    (cursor : option string) (w w1 w2 : World Agg) (e : string) :
  applyTransactionUpdates itemId added modified removed cursor w
  = (Throw e, w1) ->
  applyTransactionUpdates itemId added modified removed cursor w1
  = (Ok tt, w2) ->
  exists userId,
    session w = Some userId
    /\ db w2 = applied userId itemId added modified removed cursor (db w).
Proof.
  intros H1 H2. apply apply_failure in H1. apply apply_ok in H2.
  destruct H1 as (Hs & Hi & Ha & H1).
  destruct H2 as (uid & Hu & Hne & _ & Hd & _).
  exists uid. split; [congruence|]. rewrite Hd. unfold applied.
  rewrite Hi, Ha. f_equal.
  rewrite Hs in Hu.
  destruct H1 as [Hn | [Hn | (uid' & Hu' & H1)]];
    [rewrite Hn in Hu; discriminate | rewrite Hn in Hu; congruence |].
  assert (uid' = uid) by congruence. subst uid'. cbv zeta in H1.
  destruct H1 as [-> | [-> | ->]].
  - reflexivity.
  - now rewrite upsert_idem.
  - now rewrite upsert_delete_idem.
Qed.

(** X6.  The application of an empty delta changes no transaction row and
    no account, whatever its outcome; when it succeeds it has sent an
    upsert of no row, no delete, and the cursor commit. *)
Theorem empty_delta_only_commits_the_cursor (itemId : string)
    (cursor : option string) (w w' : World Agg) (r : Result unit) :
  applyTransactionUpdates itemId [] [] [] cursor w = (r, w') ->
  transactions (db w') = transactions (db w)
  /\ Db.accounts (db w') = Db.accounts (db w)
  /\ (r = Ok tt ->
      items (db w') = update_cursor itemId cursor (items (db w))
      /\ trace w' = trace w ++ [EvStore (UpsertTransactions []) None;
                                 EvStore (UpdateCursor itemId cursor) None]).
Proof.
  intros H. apply apply_outcome in H.
  destruct H as (_ & _ & [(Hr & _ & ->) | (uid & _ & _ & H)]).
  - repeat split; intros; congruence.
  - cbv zeta in H.
    destruct H as [(e & Hr & Hd & _) | [(e & Hr & Hne & _)
                  | [(e & Hr & Hd & _) | (Hr & Hd & Ht)]]];
      try congruence; rewrite Hd; unfold applied; simpl;
      rewrite ?delete_in_nil; repeat split; try (intros; congruence).
    exact Ht.
Qed.

(** X7.  After an application of a delta that succeeds, an identifier
    selects no row when it is removed; otherwise the row built from the
    last entry that [added ++ modified] has for it; otherwise the row it
    selected before.  The identifiers with a row are those that had one or
    are in [added] or [modified], less the removed ones. *)
Theorem lookup_after_apply (itemId : string)
    (added modified : list Transaction) (removed : list string)
    (cursor : option string) (w w' : World Agg) (userId : string) :
  applyTransactionUpdates itemId added modified removed cursor w
  = (Ok tt, w') ->
  session w = Some userId ->
  (forall k,
     lookup t_transaction_id k (transactions (db w'))
     = if mem k removed then None
       else match last_with transaction_id k (added ++ modified) with
            | Some t => Some (transaction_row userId t)
            | None => lookup t_transaction_id k (transactions (db w))
            end)
  /\ (forall k,
        In k (keys t_transaction_id (transactions (db w')))
        <-> (In k (keys t_transaction_id (transactions (db w)))
             \/ In k (ids (added ++ modified)))
            /\ ~ In k removed).
Proof.
  intros H Hs. apply apply_ok in H.
  destruct H as (uid & Hu & _ & _ & Hd & _).
  assert (uid = userId) by congruence. subst uid.
  rewrite Hd. unfold applied. simpl. split; intros k.
  - rewrite lookup_delete_in, lookup_upsert, last_with_rows.
    destruct (mem k removed); [reflexivity|].
    now destruct (last_with transaction_id k (added ++ modified)).
  - now rewrite present_delete_in, present_upsert, keys_rows.
Qed.

(** X8.  After an application of a delta that succeeds, every row of the
    transactions table whose identifier is in [added] or [modified] is a
    row built from an entry of these for the user of the session: whoever
    the row belonged to before, it now carries this user. *)
Theorem applied_rows_carry_the_user (itemId : string)
    (added modified : list Transaction) (removed : list string)
    (cursor : option string) (w w' : World Agg) (userId : string)
    (row : TransactionRow) :
  applyTransactionUpdates itemId added modified removed cursor w
  = (Ok tt, w') ->
  session w = Some userId ->
  In row (transactions (db w')) ->
  In (t_transaction_id row) (ids (added ++ modified)) ->
  t_user_id row = userId
  /\ exists t, In t (added ++ modified) /\ row = transaction_row userId t.
Proof.
  intros H Hs Hin Hid. apply apply_ok in H.
  destruct H as (uid & Hu & _ & _ & Hd & _).
  assert (uid = userId) by congruence. subst uid.
  rewrite Hd in Hin. unfold applied in Hin. simpl in Hin.
  apply in_delete_in in Hin. destruct Hin as [Hin _].
  apply in_upsert in Hin. destruct Hin as [Hl | [Hl _]].
  - apply last_with_some in Hl. destruct Hl as [Hl _].
    apply in_map_iff in Hl. destruct Hl as (t & <- & Ht).
    split; [reflexivity|]. now exists t.
  - apply last_with_none in Hl. rewrite keys_rows in Hl. contradiction.
Qed.

End MoreApplyFacts.

(** ** The synchronisation, further *)

Section MoreSyncFacts.

Context {Agg : Type} {plaidClient : PlaidApi Agg}.

Lemma apply_no_user (itemId : string) (added modified : list Transaction)
    (removed : list string) (cursor : option string) (w : World Agg) :
  session w = None \/ session w = Some "" ->
  applyTransactionUpdates itemId added modified removed cursor w
  = (Throw "User not found", w).
Proof.
  intros H. apply no_user_found in H.
  unfold applyTransactionUpdates, bind. now rewrite H.
Qed.

(** X2.  Without a user that the session resolves, [syncTransactions]
    still reads the cursor and fetches every page, and only then fails:
    the caller gets [SyncFailed], 'User not found' goes to the console, and
    the store has received nothing but the read of the cursor. *)
Theorem sync_without_user_fetches_then_fails (tok itemId : string)
    (w : World Agg) (init : list TransactionsSyncResponse)
    (last : TransactionsSyncResponse) (a' : Agg) (fuel : nat) :
  session w = None \/ session w = Some "" ->
  serves (plaid w) tok (starting_cursor itemId w) (init ++ [last]) a' ->
  forallb has_more init = true ->
  has_more last = false ->
  List.length init < fuel ->
  syncTransactions fuel tok itemId w
  = (Throw SyncFailed,
     emit (EvConsoleError "Error syncing transactions:" "User not found")
       (after_fetches (after_select itemId w) a'
          (sync_events tok (starting_cursor itemId w) (init ++ [last])))).
Proof.
  intros Hn Hs Hinit Hlast Hfuel. rewrite sync_after_select.
  erewrite sync_from_loop_ok
    by (apply (sync_loop_serves tok init last
                 (initial_vars (starting_cursor itemId w))
                 (after_select itemId w) a' eq_refl Hs Hinit Hlast Hfuel)).
  unfold apply_and_report, try_catch, bind at 1.
  now rewrite apply_no_user.
Qed.




(** The first thing [syncTransactions] does after reading the cursor, when
    its loop is followed at all: a fetch with the starting cursor. *)
Lemma sync_first_fetch (fuel : nat) (tok itemId : string) (w : World Agg) :
  0 < fuel ->
  exists reply evs,
    trace (snd (syncTransactions fuel tok itemId w))
    = trace w
      ++ EvStore (SelectCursor itemId) (hd None (faults w))
      :: EvTransactionsSync
           {| access_token := tok; cursor := starting_cursor itemId w |} reply
      :: evs.
Proof.
  intros Hfuel. destruct fuel as [|fuel]; [lia|].
  rewrite sync_after_select.
  set (c := starting_cursor itemId w). set (w1 := after_select itemId w).
  destruct (transactionsSync (plaid w1) {| access_token := tok; cursor := c |})
    as [reply a] eqn:Hf.
  exists reply.
  destruct reply as [e | p].
  - assert (Hl : sync_loop (S fuel) tok (initial_vars c) w1
                 = (Throw e,
                    after_fetches w1 a
                      [EvTransactionsSync
                         {| access_token := tok; cursor := c |} (inl e)])).
    { simpl. unfold bind, call_transactionsSync. now rewrite Hf. }
    erewrite sync_from_loop_throw by exact Hl. simpl.
    exists [EvConsoleError "Error syncing transactions:" e].
    subst w1. simpl. rewrite <- !app_assoc. reflexivity.
  - assert (Hstep := sync_loop_fetch fuel tok (initial_vars c) w1 eq_refl Hf).
    destruct (sync_loop (S fuel) tok (initial_vars c) w1) as [rl w2] eqn:Hl.
    symmetry in Hstep.
    destruct (sync_loop_trace _ _ _ _ Hstep) as (_ & _ & _ & evl & Htl & _).
    simpl in Htl. destruct rl as [v|e|].
    + erewrite sync_from_loop_ok by exact Hl.
      destruct (apply_and_report itemId v w2) as [r w'] eqn:Hr.
      apply apply_and_report_run in Hr.
      destruct Hr as (r1 & w3 & Ha & Hr).
      destruct (apply_trace _ _ _ _ _ _ Ha) as (eva & Hta & _).
      destruct Hr as [(_ & _ & ->) | (e & _ & _ & ->)]; simpl.
      * exists (evl ++ eva).
        rewrite Hta, Htl. subst w1. simpl. rewrite <- !app_assoc. reflexivity.
      * exists (evl ++ eva
                ++ [EvConsoleError "Error syncing transactions:" e]).
        rewrite Hta, Htl. subst w1. simpl. rewrite <- !app_assoc. reflexivity.
    + erewrite sync_from_loop_throw by exact Hl. simpl.
      exists (evl ++ [EvConsoleError "Error syncing transactions:" e]).
      rewrite Htl. subst w1. simpl. rewrite <- !app_assoc. reflexivity.
    + erewrite sync_from_loop_diverge by exact Hl. simpl.
      exists evl. rewrite Htl. subst w1. simpl. rewrite <- !app_assoc. reflexivity.
Qed.

(** X9.  When the store answers the read of the cursor and the item has
    exactly one row, with a cursor that is not empty, [syncTransactions]
    resumes from it: its first fetch carries the stored cursor. *)
Theorem sync_resumes_from_the_stored_cursor (fuel : nat) (tok itemId : string)
    (w : World Agg) (r : ItemRow) (c : string) :
  hd None (faults w) = None ->
  rows_of_item itemId (db w) = [r] ->
  i_cursor r = Some c ->
  c <> "" ->
  0 < fuel ->
  syncTransactions fuel tok itemId w
  = sync_from fuel tok itemId (Some c) (after_select itemId w)
  /\ exists reply evs,
       trace (snd (syncTransactions fuel tok itemId w))
       = trace w
         ++ EvStore (SelectCursor itemId) None
         :: EvTransactionsSync
              {| access_token := tok; cursor := Some c |} reply
         :: evs.
Proof.
  intros Hf Hrow Hc Hne Hfuel.
  assert (Hstart : starting_cursor itemId w = Some c).
  { unfold starting_cursor, cursor_of_item. fold (rows_of_item itemId (db w)).
    rewrite Hf, Hrow. simpl. rewrite Hc. simpl.
    apply String.eqb_neq in Hne. now rewrite Hne. }
  split.
  - now rewrite sync_after_select, Hstart.
  - destruct (@sync_first_fetch fuel tok itemId w Hfuel) as (reply & evs & Ht).
    rewrite Hstart, Hf in Ht. now exists reply, evs.
Qed.

(** X10.  When the store refuses the read of the cursor, or the item has
    several rows, [syncTransactions] raises nothing: it ignores the stored
    cursors and fetches from the cursor [null]. *)
Theorem sync_ignores_unreadable_cursor (fuel : nat) (tok itemId : string)
    (w : World Agg) :
  hd None (faults w) <> None
  \/ 2 <= List.length (rows_of_item itemId (db w)) ->
  0 < fuel ->
  syncTransactions fuel tok itemId w
  = sync_from fuel tok itemId None (after_select itemId w)
  /\ exists reply evs,
       trace (snd (syncTransactions fuel tok itemId w))
       = trace w
         ++ EvStore (SelectCursor itemId) (hd None (faults w))
         :: EvTransactionsSync
              {| access_token := tok; cursor := None |} reply
         :: evs.
Proof.
  intros H Hfuel.
  assert (Hstart : starting_cursor itemId w = None).
  { unfold starting_cursor, cursor_of_item. fold (rows_of_item itemId (db w)).
    destruct (hd None (faults w)); [reflexivity|].
    destruct H as [H | H]; [congruence|].
    destruct (rows_of_item itemId (db w)) as [|r1 [|r2 rows]];
      simpl in H; try lia. reflexivity. }
  split.
  - now rewrite sync_after_select, Hstart.
  - destruct (@sync_first_fetch fuel tok itemId w Hfuel) as (reply & evs & Ht).
    rewrite Hstart in Ht. now exists reply, evs.
Qed.

Lemma rows_of_item_update (itemId : string) (c : option string)
    (d : Database) :
  rows_of_item itemId
    {| items := update_cursor itemId c (items d);
       Db.accounts := Db.accounts d;
       transactions := transactions d |}
  = map (set_cursor c) (rows_of_item itemId d).
Proof.
  unfold rows_of_item, update_cursor. simpl.
  induction (items d) as [|r t IH]; [reflexivity|]. simpl.
  destruct (String.eqb (i_item_id r) itemId) eqn:E; simpl; rewrite E.
  - simpl. now rewrite IH.
  - exact IH.
Qed.

(** X11.  A synchronisation that succeeds on an item with one row leaves
    the cursor where the next one finds it: the next [syncTransactions]
    for the item, its read of the cursor answered, starts from the
    [next_cursor] of the last page (from [null] if that is the empty
    string). *)
Theorem next_sync_resumes_where_this_one_ended (tok itemId : string)
    (w w' : World Agg) (init : list TransactionsSyncResponse)
    (last : TransactionsSyncResponse) (a' : Agg) (fuel : nat)
    (r : ItemRow) (message : string) :
  serves (plaid w) tok (starting_cursor itemId w) (init ++ [last]) a' ->
  forallb has_more init = true ->
  has_more last = false ->
  List.length init < fuel ->
  rows_of_item itemId (db w) = [r] ->
  syncTransactions fuel tok itemId w = (Ok message, w') ->
  hd None (faults w') = None ->
  rows_of_item itemId (db w') = [set_cursor (Some (next_cursor last)) r]
  /\ forall fuel' tok',
       syncTransactions fuel' tok' itemId w'
       = sync_from fuel' tok' itemId
           (if String.eqb (next_cursor last) "" then None
            else Some (next_cursor last))
           (after_select itemId w').
Proof.
  intros Hs Hinit Hlast Hfuel Hrow H Hf.
  rewrite sync_after_select in H.
  erewrite sync_from_loop_ok in H
    by (apply (sync_loop_serves tok init last
                 (initial_vars (starting_cursor itemId w))
                 (after_select itemId w) a' eq_refl Hs Hinit Hlast Hfuel)).
  apply apply_and_report_run in H.
  destruct H as (r1 & w1 & Ha & [(-> & _ & ->) | (e & _ & Hr & _)]);
    [|discriminate].
  apply apply_ok in Ha. destruct Ha as (uid & _ & _ & _ & Hd & _).
  simpl in Hd.
  assert (Hrow' : rows_of_item itemId (db w1)
                  = [set_cursor (Some (next_cursor last)) r]).
  { rewrite Hd. unfold applied.
    unfold rows_of_item in *. simpl.
    pose proof (rows_of_item_update itemId (Some (next_cursor last)) (db w))
      as Hu.
    unfold rows_of_item in Hu. simpl in Hu. rewrite Hu, Hrow. reflexivity. }
  split; [exact Hrow'|].
  intros fuel' tok'. rewrite sync_after_select. f_equal.
  unfold starting_cursor, cursor_of_item. fold (rows_of_item itemId (db w1)).
  now rewrite Hf, Hrow'.
Qed.

End MoreSyncFacts.

(** ** The accounts, further *)

Section MoreAccountFacts.

Context {Agg : Type} {plaidClient : PlaidApi Agg}.

(** The three ways [storePlaidAccounts] can go. *)
Lemma store_accounts_outcome (accounts : list AccountBase) (item : UpdatedItem)
    (w w' : World Agg) (r : Result string) :
  storePlaidAccounts accounts item w = (r, w') ->
  plaid w' = plaid w /\ session w' = session w /\
  ((r = Throw "User not found" /\ (session w = None \/ session w = Some "")
    /\ w' = w)
   \/ exists userId, session w = Some userId /\ userId <> "" /\
      let rows := map (account_row userId item) accounts in
      ((exists e, r = Throw (String.append "Error inserting accounts: " e)
          /\ db w' = db w
          /\ trace w' = trace w ++ [EvStore (UpsertAccounts rows) (Some e)])
       \/ (r = Ok "Successfully stored accounts"
           /\ db w' = run_statement (UpsertAccounts rows) (db w)
           /\ trace w' = trace w ++ [EvStore (UpsertAccounts rows) None]))).
Proof.
  destruct w as [a s d f tr].
  unfold storePlaidAccounts, getUserId, auth_getUser, bind, store, throw_if,
    throw, ret.
  simpl. intros H.
  destruct s as [uid|]; [destruct (String.eqb uid "") eqn:Euid|].
  - apply String.eqb_eq in Euid. subst uid.
    inversion H; subst; simpl. repeat split. left. auto.
  - apply String.eqb_neq in Euid.
    destruct f as [|[e|] f]; simpl in H; inversion H; subst; simpl;
      repeat split; right; exists uid; (split; [reflexivity|]);
      (split; [assumption|]); cbv zeta.
    + right. repeat split.
    + left. exists e. repeat split.
    + right. repeat split.
  - inversion H; subst; simpl. repeat split. left. auto.
Qed.

(** X12.  Storing the same accounts of the same item a second time leaves
    the database as the first time left it, and the account identifiers
    stay pairwise distinct. *)
Theorem store_accounts_twice_is_once (accounts : list AccountBase)
    (item : UpdatedItem) (w w1 w2 : World Agg) (m1 m2 : string) :
  storePlaidAccounts accounts item w = (Ok m1, w1) ->
  storePlaidAccounts accounts item w1 = (Ok m2, w2) ->
  db w2 = db w1
  /\ (NoDup (keys a_account_id (Db.accounts (db w))) ->
      NoDup (keys a_account_id (Db.accounts (db w1)))).
Proof.
  intros H1 H2. apply store_accounts_outcome in H1, H2.
  destruct H1 as (_ & Hs1 & [(Hr & _) | (uid & Hu & _ & H1)]); [discriminate|].
  destruct H2 as (_ & _ & [(Hr & _) | (uid' & Hu' & _ & H2)]); [discriminate|].
  assert (uid' = uid) by congruence. subst uid'. cbv zeta in H1, H2.
  destruct H1 as [(e & Hr & _) | (_ & Hd1 & _)]; [discriminate|].
  destruct H2 as [(e & Hr & _) | (_ & Hd2 & _)]; [discriminate|].
  split.
  - rewrite Hd2, Hd1. simpl. now rewrite upsert_idem.
  - intros Hnd. rewrite Hd1. simpl. now apply unique_upsert.
Qed.

(** X13.  [fetchAndStoreAccounts] returns nothing but 'Successfully stored
    accounts' and throws nothing but 'Failed to fetch accounts', whether
    the fetch, the session or the store failed; when it throws, the
    database is as it was and the last thing written to the console is the
    error that made it fail: the message of the fetch that threw, or 'User
    not found' when the session resolves no user, or 'Error inserting
    accounts: ' with the message of the store that refused the upsert. *)
Theorem accounts_refresh_fails_only_one_way (tok : string) (w w' : World Agg)
    (r : Result string) :
  fetchAndStoreAccounts tok w = (r, w') ->
  r = Ok "Successfully stored accounts"
  \/ (r = Throw "Failed to fetch accounts"
      /\ db w' = db w
      /\ exists cause evs,
           trace w' = trace w ++ evs
             ++ [EvConsoleError "Error fetching accounts:" cause]
           /\ (evs = [EvAccountsGet tok (inl cause)]
               \/ (cause = "User not found"
                   /\ (session w = None \/ session w = Some "")
                   /\ exists data, evs = [EvAccountsGet tok (inr data)])
               \/ (exists data rows message,
                     evs = [EvAccountsGet tok (inr data);
                            EvStore (UpsertAccounts rows) (Some message)]
                     /\ cause
                        = String.append "Error inserting accounts: "
                            message))).
Proof.
  unfold fetchAndStoreAccounts, try_catch, bind at 1, call_accountsGet.
  destruct (accountsGet (plaid w) tok) as [[e | data] a] eqn:Hget.
  - unfold bind, console_error, throw, emit. simpl. intros H.
    inversion H; subst; simpl. right. repeat split.
    exists e, [EvAccountsGet tok (inl e)]. rewrite <- app_assoc.
    split; [reflexivity | now left].
  - destruct (storePlaidAccounts (Plaid.accounts data) (item data) _)
      as [r1 w1] eqn:Hstore.
    apply store_accounts_outcome in Hstore. simpl in Hstore.
    destruct Hstore as (_ & _ & [(-> & Hn & ->) | (uid & _ & _ & Hstore)]).
    + unfold bind, console_error, throw, emit. simpl. intros H.
      inversion H; subst; simpl. right. repeat split.
      exists "User not found", [EvAccountsGet tok (inr data)].
      rewrite <- app_assoc. split; [reflexivity|].
      right. left. split; [reflexivity|]. split; [exact Hn|]. now exists data.
    + cbv zeta in Hstore.
      destruct Hstore as [(e & -> & Hd & Ht) | (-> & _)].
      * unfold bind, console_error, throw, emit. simpl. intros H.
        inversion H; subst; simpl. right. split; [reflexivity|].
        split; [exact Hd|].
        exists (String.append "Error inserting accounts: " e),
          [EvAccountsGet tok (inr data);
           EvStore (UpsertAccounts
                      (map (account_row uid (item data))
                         (Plaid.accounts data))) (Some e)].
        split; [rewrite Ht, <- !app_assoc; reflexivity|].
        right. right.
        exists data,
          (map (account_row uid (item data)) (Plaid.accounts data)), e.
        split; reflexivity.
      * intros H. inversion H; subst. now left.
Qed.

(** X14.  Whatever its outcome, [storePlaidAccounts] leaves alone the
    items, the transactions and every account row whose identifier is not
    one of the accounts it is given. *)
Theorem store_accounts_footprint (accounts : list AccountBase)
    (item : UpdatedItem) (w w' : World Agg) (r : Result string) :
  storePlaidAccounts accounts item w = (r, w') ->
  items (db w') = items (db w)
  /\ transactions (db w') = transactions (db w)
  /\ forall k,
       ~ In k (map acc_account_id accounts) ->
       filter (has_key a_account_id k) (Db.accounts (db w'))
       = filter (has_key a_account_id k) (Db.accounts (db w)).
Proof.
  intros H. apply store_accounts_outcome in H.
  destruct H as (_ & _ & [(_ & _ & ->) | (uid & _ & _ & H)]).
  - repeat split.
  - cbv zeta in H.
    destruct H as [(e & _ & Hd & _) | (_ & Hd & _)]; rewrite Hd;
      repeat split.
    intros k Hk. simpl. apply rows_upsert.
    unfold keys. rewrite map_map. exact Hk.
Qed.

End MoreAccountFacts.

(** ** The link of an item and the reads *)

Section LinkAndReadFacts.

Context {Agg : Type} {plaidClient : PlaidApi Agg}.

Lemma linked_iff (itemId : string) (d : Database) :
  mem itemId (keys i_item_id (items d)) = false <-> rows_of_item itemId d = [].
Proof.
  unfold rows_of_item, keys. induction (items d) as [|r t IH]; simpl.
  - tauto.
  - rewrite (String.eqb_sym itemId).
    destruct (String.eqb (i_item_id r) itemId); simpl.
    + split; discriminate.
    + exact IH.
Qed.

Lemma store_item_run (accessToken : string) (item : UpdatedItem)
    (w : World Agg) (userId : string) :
  session w = Some userId ->
  userId <> "" ->
  storePlaidItem accessToken item w
  = match hd None (faults w) with
    | None =>
        if mem (item_id item) (keys i_item_id (items (db w)))
        then
          (Throw (String.append "Error storing Plaid item: " unique_violation),
           {| plaid := plaid w; session := session w; db := db w;
              faults := tl (faults w); trace := trace w |})
        else
          (Ok "Successfully stored Plaid item",
           {| plaid := plaid w; session := session w;
              db := {| items := items (db w)
                                  ++ [item_row userId accessToken item];
                       Db.accounts := Db.accounts (db w);
                       transactions := transactions (db w) |};
              faults := tl (faults w); trace := trace w |})
    | Some e =>
        (Throw (String.append "Error storing Plaid item: " e),
         {| plaid := plaid w; session := session w; db := db w;
            faults := tl (faults w); trace := trace w |})
    end.
Proof.
  intros Hu Hne. unfold storePlaidItem, bind at 1.
  rewrite (user_found w Hu Hne).
  unfold bind, insert_items, throw_if, throw, ret. cbn [insert_rows].
  change (i_item_id (item_row userId accessToken item)) with (item_id item).
  destruct (hd None (faults w)); [reflexivity|].
  destruct (mem (item_id item) (keys i_item_id (items (db w)))); reflexivity.
Qed.

Lemma update_cursor_app (itemId : string) (c : option string)
    (t1 t2 : list ItemRow) :
  update_cursor itemId c (t1 ++ t2)
  = update_cursor itemId c t1 ++ update_cursor itemId c t2.
Proof. apply map_app. Qed.

(** X15.  An item that is linked and then synchronised for the first time:
    when the item had no row, [storePlaidItem] adds one without cursor, the
    synchronisation that follows fetches from the cursor [null] and
    succeeds, and the items are then the former ones followed by the new
    row with the [next_cursor] of the last page. *)
Theorem link_then_first_sync (tok : string) (item : UpdatedItem)
    (w : World Agg) (userId : string)
    (init : list TransactionsSyncResponse) (last : TransactionsSyncResponse)
    (a' : Agg) (fuel : nat) :
  session w = Some userId ->
  userId <> "" ->
  faults w = [] ->
  rows_of_item (item_id item) (db w) = [] ->
  serves (plaid w) tok None (init ++ [last]) a' ->
  forallb has_more init = true ->
  has_more last = false ->
  List.length init < fuel ->
  exists w1 w2,
    storePlaidItem tok item w = (Ok "Successfully stored Plaid item", w1)
    /\ items (db w1) = items (db w) ++ [item_row userId tok item]
    /\ starting_cursor (item_id item) w1 = None
    /\ syncTransactions fuel tok (item_id item) w1
       = (Ok "Transactions synced successfully", w2)
    /\ items (db w2)
       = items (db w)
         ++ [set_cursor (Some (next_cursor last)) (item_row userId tok item)].
Proof.
  intros Hu Hne Hf Hrow Hs Hinit Hlast Hfuel.
  rewrite (store_item_run tok item w Hu Hne), Hf. cbn [hd].
  rewrite (proj2 (linked_iff (item_id item) (db w)) Hrow). simpl.
  eexists. eexists. split; [reflexivity|]. simpl. split; [reflexivity|].
  match goal with
  | |- starting_cursor _ ?x = None /\ _ =>
      set (w1 := x);
      assert (Hstart : starting_cursor (item_id item) w1 = None)
  end.
  { unfold starting_cursor, cursor_of_item. simpl.
    rewrite filter_app. fold (rows_of_item (item_id item) (db w)).
    rewrite Hrow. simpl. now rewrite String.eqb_refl. }
  split; [exact Hstart|].
  rewrite sync_after_select, Hstart.
  erewrite sync_from_loop_ok
    by (apply (sync_loop_serves tok init last (initial_vars None)
                 (after_select (item_id item) w1) a' eq_refl Hs Hinit
                 Hlast Hfuel)).
  unfold apply_and_report, try_catch, bind at 1.
  rewrite (apply_no_faults _ _ _ _ _ _ (userId := userId)); simpl; auto.
  unfold bind, ret. split; [reflexivity|].
  cbn [db items applied]. rewrite update_cursor_app.
  rewrite update_cursor_absent by (now apply no_row_of_item).
  simpl. now rewrite String.eqb_refl.
Qed.

Lemma fetch_transactions_run (w : World Agg) (userId : string) :
  session w = Some userId ->
  userId <> "" ->
  fetchTransactions w
  = (match hd None (faults w) with
     | None =>
         Ok (filter (fun r => String.eqb (t_user_id r) userId)
               (transactions (db w)))
     | Some e => Throw (String.append "Error fetching transactions: " e)
     end,
     {| plaid := plaid w; session := session w; db := db w;
        faults := tl (faults w); trace := trace w |}).
Proof.
  intros Hu Hne. unfold fetchTransactions, bind at 1.
  rewrite (user_found w Hu Hne).
  unfold bind, select_of_user, throw, ret.
  destruct (hd None (faults w)); reflexivity.
Qed.

Lemma fetch_accounts_run (w : World Agg) (userId : string) :
  session w = Some userId ->
  userId <> "" ->
  fetchAccounts w
  = (match hd None (faults w) with
     | None =>
         Ok (filter (fun r => String.eqb (a_user_id r) userId)
               (Db.accounts (db w)))
     | Some e => Throw (String.append "Error fetching accounts: " e)
     end,
     {| plaid := plaid w; session := session w; db := db w;
        faults := tl (faults w); trace := trace w |}).
Proof.
  intros Hu Hne. unfold fetchAccounts, bind at 1.
  rewrite (user_found w Hu Hne).
  unfold bind, select_of_user, throw, ret.
  destruct (hd None (faults w)); reflexivity.
Qed.

(** X16.  What [fetchTransactions] and [fetchAccounts] return are the rows
    of the user of the session, all of them and no row of another user,
    and the database is as it was. *)
Theorem reads_return_the_rows_of_the_user (w : World Agg) :
  (forall data w',
     fetchTransactions w = (Ok data, w') ->
     exists userId,
       session w = Some userId /\ db w' = db w
       /\ forall row,
            In row data
            <-> In row (transactions (db w)) /\ t_user_id row = userId)
  /\ (forall data w',
        fetchAccounts w = (Ok data, w') ->
        exists userId,
          session w = Some userId /\ db w' = db w
          /\ forall row,
               In row data
               <-> In row (Db.accounts (db w)) /\ a_user_id row = userId).
Proof.
  split; intros data w' H;
    (destruct (session w) as [uid|] eqn:Hu;
     [destruct (String.eqb uid "") eqn:Euid|]).
  - apply String.eqb_eq in Euid. subst uid.
    destruct (reads_need_a_user w (or_intror Hu)) as (_ & Hft).
    rewrite Hft in H. discriminate.
  - apply String.eqb_neq in Euid.
    rewrite (fetch_transactions_run w Hu Euid) in H.
    destruct (hd None (faults w)); inversion H; subst.
    exists uid. repeat split.
    + now apply filter_In in H0.
    + apply filter_In in H0. destruct H0 as [_ H0].
      now apply String.eqb_eq in H0.
    + intros [Hin Huser]. apply filter_In. split; [exact Hin|].
      now apply String.eqb_eq.
  - destruct (reads_need_a_user w (or_introl Hu)) as (_ & Hft).
    rewrite Hft in H. discriminate.
  - apply String.eqb_eq in Euid. subst uid.
    destruct (reads_need_a_user w (or_intror Hu)) as (Hfa & _).
    rewrite Hfa in H. discriminate.
  - apply String.eqb_neq in Euid.
    rewrite (fetch_accounts_run w Hu Euid) in H.
    destruct (hd None (faults w)); inversion H; subst.
    exists uid. repeat split.
    + now apply filter_In in H0.
    + apply filter_In in H0. destruct H0 as [_ H0].
      now apply String.eqb_eq in H0.
    + intros [Hin Huser]. apply filter_In. split; [exact Hin|].
      now apply String.eqb_eq.
  - destruct (reads_need_a_user w (or_introl Hu)) as (Hfa & _).
    rewrite Hfa in H. discriminate.
Qed.

(** X17.  [storePlaidItem] adds one item row or nothing.  When it returns,
    the item had no row, the items are the former ones followed by one row
    of the user of the session, without cursor, and this is the one row of
    the item; when it throws, the database is as it was; and it throws when
    the item has a row already, the item identifier being unique in the
    store.  It never changes an existing item row, an account or a
    transaction. *)
Theorem store_item_adds_one_row_or_nothing (accessToken : string)
    (item : UpdatedItem) (w w' : World Agg) (r : Result string) :
  storePlaidItem accessToken item w = (r, w') ->
  ((exists userId,
      r = Ok "Successfully stored Plaid item"
      /\ session w = Some userId
      /\ rows_of_item (item_id item) (db w) = []
      /\ items (db w') = items (db w) ++ [item_row userId accessToken item]
      /\ rows_of_item (item_id item) (db w')
         = [item_row userId accessToken item]
      /\ Db.accounts (db w') = Db.accounts (db w)
      /\ transactions (db w') = transactions (db w))
   \/ (exists e, r = Throw e /\ db w' = db w))
  /\ (rows_of_item (item_id item) (db w) <> [] ->
      exists e, r = Throw e /\ db w' = db w).
Proof.
  intros H.
  destruct (session w) as [uid|] eqn:Hu;
    [destruct (String.eqb uid "") eqn:Euid|].
  - apply String.eqb_eq in Euid. subst uid.
    unfold storePlaidItem, bind in H.
    rewrite (no_user_found w (or_intror Hu)) in H. inversion H; subst.
    split; [right|intros _]; now exists "User not found".
  - apply String.eqb_neq in Euid.
    rewrite (store_item_run accessToken item w Hu Euid) in H.
    destruct (hd None (faults w)) as [e|].
    + inversion H; subst; simpl.
      split; [right|intros _]; eexists; split; reflexivity.
    + destruct (mem (item_id item) (keys i_item_id (items (db w)))) eqn:Em;
        inversion H; subst; simpl.
      * split; [right|intros _]; eexists; split; reflexivity.
      * apply linked_iff in Em. split.
        -- left. exists uid. repeat split; [exact Em|].
           unfold rows_of_item in *. simpl. rewrite filter_app, Em. simpl.
           now rewrite String.eqb_refl.
        -- intros Hrows. contradiction.
  - unfold storePlaidItem, bind in H.
    rewrite (no_user_found w (or_introl Hu)) in H. inversion H; subst.
    split; [right|intros _]; now exists "User not found".
Qed.

(** X18.  What a successful application of a delta wrote is what
    [fetchTransactions] reads back for the same user, when the store
    answers: an identifier of [added] or [modified] that is not removed
    selects, in the rows returned, the row built from its last entry, and
    no row returned has a removed identifier. *)
Theorem fetch_transactions_after_apply (itemId : string)
    (added modified : list Transaction) (removed : list string)
    (cursor : option string) (w w1 : World Agg) (userId : string) :
  applyTransactionUpdates itemId added modified removed cursor w
  = (Ok tt, w1) ->
  session w = Some userId ->
  hd None (faults w1) = None ->
  exists data w2,
    fetchTransactions w1 = (Ok data, w2)
    /\ (forall k t,
          ~ In k removed ->
          last_with transaction_id k (added ++ modified) = Some t ->
          lookup t_transaction_id k data = Some (transaction_row userId t))
    /\ (forall k, In k removed -> ~ In k (keys t_transaction_id data)).
Proof.
  intros H Hs Hf. apply apply_ok in H.
  destruct H as (uid & Hu & Hne & Hs1 & Hd & _).
  assert (uid = userId) by congruence. subst uid.
  rewrite (fetch_transactions_run w1 Hs1 Hne), Hf.
  eexists. eexists. split; [reflexivity|]. rewrite Hd. unfold applied.
  cbn [transactions]. split.
  - intros k t Hk Ht. apply lookup_filter.
    + rewrite lookup_delete_in, lookup_upsert, last_with_rows, Ht.
      apply mem_false in Hk. now rewrite Hk.
    + simpl. apply String.eqb_refl.
  - intros k Hk [row [Hrow Hin]]%in_map_iff.
    apply filter_In in Hin. destruct Hin as [Hin _].
    apply in_delete_in in Hin. destruct Hin as [_ Hin].
    apply Hin. now rewrite Hrow.
Qed.

(** X19.  What [storePlaidAccounts] stored is what [fetchAccounts] reads
    back for the same user, when the store answers: the identifier of each
    account given selects, in the rows returned, the row built from the
    last account given with this identifier. *)
Theorem fetch_accounts_after_store (accounts : list AccountBase)
    (item : UpdatedItem) (w w1 : World Agg) (message userId : string) :
  storePlaidAccounts accounts item w = (Ok message, w1) ->
  session w = Some userId ->
  hd None (faults w1) = None ->
  exists data w2,
    fetchAccounts w1 = (Ok data, w2)
    /\ forall account,
         In account accounts ->
         exists account',
           last_with acc_account_id (acc_account_id account) accounts
           = Some account'
           /\ lookup a_account_id (acc_account_id account) data
              = Some (account_row userId item account').
Proof.
  intros H Hs Hf. apply store_accounts_outcome in H.
  destruct H as (_ & Hs1 & [(Hr & _) | (uid & Hu & Hne & H)]); [discriminate|].
  assert (uid = userId) by congruence. subst uid. cbv zeta in H.
  destruct H as [(e & Hr & _) | (_ & Hd & _)]; [discriminate|].
  rewrite Hs in Hs1.
  rewrite (fetch_accounts_run w1 Hs1 Hne), Hf.
  eexists. eexists. split; [reflexivity|]. rewrite Hd. simpl.
  intros account Hin.
  destruct (last_with_present acc_account_id _ _ Hin) as [account' Ha].
  exists account'. split; [exact Ha|].
  apply lookup_filter.
  - now rewrite lookup_upsert, last_with_account_rows, Ha.
  - simpl. apply String.eqb_refl.
Qed.

End LinkAndReadFacts.

(** ** The configuration *)

Section ConfigFacts.

Import Config.

Variable sep : Ascii.ascii.

Lemma split_not_nil (s : string) : split sep s <> [].
Proof.
  destruct s as [|c s]; simpl; [discriminate|].
  destruct (Ascii.eqb c sep); [discriminate|].
  destruct (split sep s); discriminate.
Qed.

(** Joining the pieces with the separator gives the string back. *)
Lemma join_split (s : string) :
  String.concat (String sep EmptyString) (split sep s) = s.
Proof.
  induction s as [|c s IH]; [reflexivity|]. simpl split.
  destruct (Ascii.eqb c sep) eqn:Ec.
  - apply Ascii.eqb_eq in Ec. subst c.
    destruct (split sep s) as [|piece rest] eqn:Es.
    + now apply split_not_nil in Es.
    + change (String.concat (String sep EmptyString)
                (EmptyString :: piece :: rest))
        with (String sep (String.concat (String sep EmptyString)
                            (piece :: rest))).
      now rewrite IH.
  - destruct (split sep s) as [|piece rest] eqn:Es.
    + now apply split_not_nil in Es.
    + rewrite <- IH. destruct rest; reflexivity.
Qed.

Lemma pieces_without_separator (s p : string) :
  In p (split sep s) -> has_char sep p = false.
Proof.
  revert p. induction s as [|c s IH]; intros p; simpl.
  - intros [<- | []]. reflexivity.
  - destruct (Ascii.eqb c sep) eqn:Ec.
    + intros [<- | Hin]; [reflexivity | now apply IH].
    + destruct (split sep s) as [|piece rest] eqn:Es.
      * intros [<- | []]. simpl. now rewrite Ec.
      * intros [<- | Hin].
        -- simpl. rewrite Ec. simpl. apply IH. now left.
        -- apply IH. now right.
Qed.

Lemma split_without_separator (s : string) :
  has_char sep s = false -> split sep s = [s].
Proof.
  induction s as [|c s IH]; [reflexivity|]. simpl.
  intros [Hc Hs]%orb_false_iff. rewrite Hc, (IH Hs). reflexivity.
Qed.

End ConfigFacts.

(** X20.  Whatever the environment, [PLAID_PRODUCTS] and
    [PLAID_COUNTRY_CODES] are lists with at least one element, whose
    elements have no comma and, joined by commas, give back the value of
    the variable, or 'transactions' and 'US' when the variable is not set
    or empty; a value without comma gives the list of this one value. *)
Theorem plaid_lists_split_the_environment (env : Config.Env) :
  let products := Config.or_default (env "PLAID_PRODUCTS") "transactions" in
  let codes := Config.or_default (env "PLAID_COUNTRY_CODES") "US" in
  Config.PLAID_PRODUCTS env <> []
  /\ Config.PLAID_COUNTRY_CODES env <> []
  /\ String.concat "," (Config.PLAID_PRODUCTS env) = products
  /\ String.concat "," (Config.PLAID_COUNTRY_CODES env) = codes
  /\ (forall p, In p (Config.PLAID_PRODUCTS env) ->
        Config.has_char Config.comma p = false)
  /\ (forall p, In p (Config.PLAID_COUNTRY_CODES env) ->
        Config.has_char Config.comma p = false)
  /\ (Config.has_char Config.comma products = false ->
      Config.PLAID_PRODUCTS env = [products])
  /\ (Config.has_char Config.comma codes = false ->
      Config.PLAID_COUNTRY_CODES env = [codes])
  /\ products <> "" /\ codes <> "".
Proof.
  intros products codes. unfold Config.PLAID_PRODUCTS, Config.PLAID_COUNTRY_CODES.
  fold products codes.
  repeat split; try apply split_not_nil; try apply (join_split Config.comma);
    try apply pieces_without_separator; try apply split_without_separator.
  - unfold products, Config.or_default.
    destruct (env "PLAID_PRODUCTS") as [s|]; [|discriminate].
    destruct (String.eqb s "") eqn:E; [discriminate|].
    now apply String.eqb_neq.
  - unfold codes, Config.or_default.
    destruct (env "PLAID_COUNTRY_CODES") as [s|]; [|discriminate].
    destruct (String.eqb s "") eqn:E; [discriminate|].
    now apply String.eqb_neq.
Qed.

(** ** Further scenarios, run *)

Lemma store_actions_need_a_user_witness :
  let w := signed_out (sample_world [sample_item_row None] [] []) in
  applyTransactionUpdates "item-1" [T1] [] [] (Some "c1") w
  = (Throw "User not found", w)
  /\ fetchTransactions w = (Throw "User not found", w).
Proof.
  intros w.
  destruct (@store_actions_need_a_user Script w (or_introl eq_refl))
    as (Happly & _ & _ & _ & Hfetch).
  split; [apply Happly | exact Hfetch].
Defined.

Lemma sync_without_user_fetches_then_fails_witness :
  let w := signed_out
             (sample_world [sample_item_row None] [inr page1; inr page2] []) in
  fst (syncTransactions 5 "access-sandbox" "item-1" w) = Throw SyncFailed
  /\ List.length (trace (snd (syncTransactions 5 "access-sandbox" "item-1" w)))
     = 4.
Proof.
  intros w.
  rewrite (@sync_without_user_fetches_then_fails Script scripted
             "access-sandbox" "item-1" w [page1] page2 script_end 5).
  - split; reflexivity.
  - now left.
  - simpl. eexists. split; [reflexivity|]. eexists. split; reflexivity.
  - reflexivity.
  - reflexivity.
  - simpl. lia.
Defined.


(** [T1] is added and removed, and the delete is refused: [T1] has a row. *)
Lemma refused_delete_leaves_the_upsert_witness :
  let w := sample_world [sample_item_row None] [] [None; Some "deadlock"] in
  exists w',
    applyTransactionUpdates "item-1" [T1; T2] [] ["T1"] (Some "c2") w
    = (Throw "Error deleting transactions: deadlock", w')
    /\ In "T1" (keys t_transaction_id (transactions (db w'))).
Proof.
  intros w.
  destruct (@refused_delete_leaves_the_upsert Script "item-1" [T1; T2] []
              ["T1"] (Some "c2") w "user-1" "deadlock" [])
    as (w' & Hrun & _ & _ & _ & Hin);
    [reflexivity | discriminate | discriminate | reflexivity |].
  exists w'. split; [exact Hrun|]. apply (Hin T1). now left.
Defined.

Lemma retry_after_failure_converges_witness :
  let w := sample_world [sample_item_row None] [] [None; Some "deadlock"] in
  let w1 := snd (applyTransactionUpdates "item-1" [T1; T2] [] ["T1"]
                   (Some "c2") w) in
  let w2 := snd (applyTransactionUpdates "item-1" [T1; T2] [] ["T1"]
                   (Some "c2") w1) in
  exists userId,
    session w = Some userId
    /\ db w2 = applied userId "item-1" [T1; T2] [] ["T1"] (Some "c2") (db w).
Proof.
  intros w w1 w2.
  apply (@retry_after_failure_converges Script "item-1" [T1; T2] [] ["T1"]
           (Some "c2") w w1 w2 "Error deleting transactions: deadlock");
    reflexivity.
Defined.

Lemma empty_delta_only_commits_the_cursor_witness :
  let w := holding [transaction_row "user-1" T1]
             (sample_world [sample_item_row (Some "c1")] [] []) in
  let run := applyTransactionUpdates "item-1" [] [] [] (Some "c2") w in
  transactions (db (snd run)) = transactions (db w)
  /\ items (db (snd run)) = [sample_item_row (Some "c2")].
Proof.
  intros w run.
  destruct (@empty_delta_only_commits_the_cursor Script "item-1" (Some "c2")
              w (snd run) (fst run) eq_refl) as (Ht & _ & Hok).
  split; [exact Ht|]. destruct (Hok eq_refl) as (Hitems & _). exact Hitems.
Defined.

Lemma lookup_after_apply_witness :
  let w := holding [transaction_row "user-1" T2]
             (sample_world [sample_item_row None] [] []) in
  let run := applyTransactionUpdates "item-1" [T1] [T1_modified] ["T2"]
               (Some "c2") w in
  lookup t_transaction_id "T1" (transactions (db (snd run)))
  = Some (transaction_row "user-1" T1_modified)
  /\ lookup t_transaction_id "T2" (transactions (db (snd run))) = None.
Proof.
  intros w run.
  destruct (@lookup_after_apply Script "item-1" [T1] [T1_modified] ["T2"]
              (Some "c2") w (snd run) "user-1" eq_refl eq_refl) as (H & _).
  split; [exact (H "T1") | exact (H "T2")].
Defined.

(** The row of [T1] belonged to [user-2]; after the sync of [user-1] it is
    a row of [user-1]. *)
Lemma applied_rows_carry_the_user_witness :
  let w := holding [transaction_row "user-2" T1]
             (sample_world [sample_item_row None] [] []) in
  let run := applyTransactionUpdates "item-1" [T1_modified] [] []
               (Some "c2") w in
  transactions (db (snd run)) = [transaction_row "user-1" T1_modified]
  /\ t_user_id (transaction_row "user-1" T1_modified) = "user-1".
Proof.
  intros w run. split; [reflexivity|].
  apply (@applied_rows_carry_the_user Script "item-1" [T1_modified] [] []
           (Some "c2") w (snd run) "user-1"
           (transaction_row "user-1" T1_modified)).
  - reflexivity.
  - reflexivity.
  - simpl. now left.
  - simpl. now left.
Defined.

Lemma sync_resumes_from_the_stored_cursor_witness :
  let w := sample_world [sample_item_row (Some "c1")] [inr page2] [] in
  syncTransactions 5 "access-sandbox" "item-1" w
  = sync_from 5 "access-sandbox" "item-1" (Some "c1")
      (after_select "item-1" w).
Proof.
  intros w.
  apply (@sync_resumes_from_the_stored_cursor Script scripted 5
           "access-sandbox" "item-1" w (sample_item_row (Some "c1")) "c1");
    [reflexivity | reflexivity | reflexivity | discriminate | lia].
Defined.

(** The item was linked twice: its two rows have cursors, and the
    synchronisation starts from [null]. *)
Lemma sync_ignores_unreadable_cursor_witness :
  let w := sample_world [sample_item_row (Some "c1");
                         sample_item_row (Some "c1")] [inr page2] [] in
  syncTransactions 5 "access-sandbox" "item-1" w
  = sync_from 5 "access-sandbox" "item-1" None (after_select "item-1" w).
Proof.
  intros w.
  apply (@sync_ignores_unreadable_cursor Script scripted 5 "access-sandbox"
           "item-1" w); [right; simpl; lia | lia].
Defined.

Lemma next_sync_resumes_where_this_one_ended_witness :
  let w := sample_world [sample_item_row None] [inr page1; inr page2] [] in
  let w' := snd (syncTransactions 5 "access-sandbox" "item-1" w) in
  rows_of_item "item-1" (db w') = [sample_item_row (Some "c2")]
  /\ syncTransactions 5 "access-sandbox" "item-1" w'
     = sync_from 5 "access-sandbox" "item-1" (Some "c2")
         (after_select "item-1" w').
Proof.
  intros w w'.
  destruct (@next_sync_resumes_where_this_one_ended Script scripted
              "access-sandbox" "item-1" w w' [page1] page2 script_end 5
              (sample_item_row None) "Transactions synced successfully")
    as (Hrow & Hnext).
  - simpl. eexists. split; [reflexivity|]. eexists. split; reflexivity.
  - reflexivity.
  - reflexivity.
  - simpl. lia.
  - reflexivity.
  - reflexivity.
  - reflexivity.
  - split; [exact Hrow | exact (Hnext 5 "access-sandbox")].
Defined.

Lemma store_accounts_twice_is_once_witness :
  let w := sample_world [] [] [] in
  let accounts := [sample_account "acc-1"; sample_account "acc-2"] in
  let w1 := snd (storePlaidAccounts accounts sample_item w) in
  let w2 := snd (storePlaidAccounts accounts sample_item w1) in
  db w2 = db w1.
Proof.
  intros w accounts w1 w2.
  destruct (@store_accounts_twice_is_once Script accounts sample_item w w1 w2
              "Successfully stored accounts" "Successfully stored accounts"
              eq_refl eq_refl) as (H & _).
  exact H.
Defined.

(** The store refuses the upsert: the caller is told the fetch failed. *)
Lemma accounts_refresh_fails_only_one_way_witness :
  let w := sample_world [] [] [Some "permission denied"] in
  let run := fetchAndStoreAccounts "access-sandbox" w in
  fst run = Throw "Failed to fetch accounts"
  /\ db (snd run) = db w
  /\ exists cause evs,
       trace (snd run) = trace w ++ evs
         ++ [EvConsoleError "Error fetching accounts:" cause]
       /\ (evs = [EvAccountsGet "access-sandbox" (inl cause)]
           \/ (cause = "User not found"
               /\ (session w = None \/ session w = Some "")
               /\ exists data, evs = [EvAccountsGet "access-sandbox" (inr data)])
           \/ (exists data rows message,
                 evs = [EvAccountsGet "access-sandbox" (inr data);
                        EvStore (UpsertAccounts rows) (Some message)]
                 /\ cause
                    = String.append "Error inserting accounts: " message)).
Proof.
  intros w run.
  destruct (@accounts_refresh_fails_only_one_way Script scripted
              "access-sandbox" w (snd run) (fst run) eq_refl) as [H | H].
  - discriminate.
  - exact H.
Defined.

Lemma store_accounts_footprint_witness :
  let w := sample_world [sample_item_row None] [] [] in
  let run := storePlaidAccounts [sample_account "acc-1"] sample_item w in
  items (db (snd run)) = items (db w)
  /\ transactions (db (snd run)) = transactions (db w).
Proof.
  intros w run.
  destruct (@store_accounts_footprint Script [sample_account "acc-1"]
              sample_item w (snd run) (fst run) eq_refl) as (Hi & Ht & _).
  split; [exact Hi | exact Ht].
Defined.

Lemma link_then_first_sync_witness :
  let w := sample_world [] [inr page1; inr page2] [] in
  exists w1 w2,
    storePlaidItem "access-sandbox" sample_item w
    = (Ok "Successfully stored Plaid item", w1)
    /\ syncTransactions 5 "access-sandbox" "item-1" w1
       = (Ok "Transactions synced successfully", w2)
    /\ items (db w2)
       = [set_cursor (Some "c2")
            (item_row "user-1" "access-sandbox" sample_item)].
Proof.
  intros w.
  destruct (@link_then_first_sync Script scripted "access-sandbox"
              sample_item w "user-1" [page1] page2 script_end 5)
    as (w1 & w2 & Hlink & _ & _ & Hsync & Hitems).
  - reflexivity.
  - discriminate.
  - reflexivity.
  - reflexivity.
  - simpl. eexists. split; [reflexivity|]. eexists. split; reflexivity.
  - reflexivity.
  - reflexivity.
  - simpl. lia.
  - exists w1, w2. split; [exact Hlink|]. split; [exact Hsync | exact Hitems].
Defined.

(** The table has a row of [user-1] and a row of [user-2]. *)
Lemma reads_return_the_rows_of_the_user_witness :
  let w := holding [transaction_row "user-1" T1; transaction_row "user-2" T2]
             (sample_world [] [] []) in
  exists userId,
    session w = Some userId
    /\ db (snd (fetchTransactions w)) = db w
    /\ forall row,
         In row [transaction_row "user-1" T1]
         <-> In row (transactions (db w)) /\ t_user_id row = userId.
Proof.
  intros w.
  destruct (@reads_return_the_rows_of_the_user Script w) as (H & _).
  apply (H [transaction_row "user-1" T1] (snd (fetchTransactions w))).
  reflexivity.
Defined.

(** The item has a row already: the link is refused and nothing changes. *)
Lemma store_item_adds_one_row_or_nothing_witness :
  let w := sample_world [sample_item_row (Some "c1")] [] [] in
  let run := storePlaidItem "access-sandbox" sample_item w in
  rows_of_item (item_id sample_item) (db w) <> []
  /\ exists e, fst run = Throw e /\ db (snd run) = db w.
Proof.
  intros w run.
  assert (Hrow : rows_of_item (item_id sample_item) (db w) <> [])
    by discriminate.
  split; [exact Hrow|].
  destruct (@store_item_adds_one_row_or_nothing Script "access-sandbox"
              sample_item w (snd run) (fst run) eq_refl) as (_ & H).
  exact (H Hrow).
Defined.

Lemma fetch_transactions_after_apply_witness :
  let w := sample_world [sample_item_row None] [] [] in
  let w1 := snd (applyTransactionUpdates "item-1" [T1; T2] [T1_modified]
                   ["T2"] (Some "c2") w) in
  exists data w2,
    fetchTransactions w1 = (Ok data, w2)
    /\ lookup t_transaction_id "T1" data
       = Some (transaction_row "user-1" T1_modified)
    /\ ~ In "T2" (keys t_transaction_id data).
Proof.
  intros w w1.
  destruct (@fetch_transactions_after_apply Script "item-1" [T1; T2]
              [T1_modified] ["T2"] (Some "c2") w w1 "user-1"
              eq_refl eq_refl eq_refl) as (data & w2 & Hrun & Hin & Hout).
  exists data, w2. split; [exact Hrun|]. split.
  - apply Hin; [|reflexivity]. simpl. intros [H | []]. discriminate.
  - apply Hout. now left.
Defined.

Lemma fetch_accounts_after_store_witness :
  let w := sample_world [] [] [] in
  let accounts := [sample_account "acc-1"; sample_account "acc-2"] in
  let w1 := snd (storePlaidAccounts accounts sample_item w) in
  exists data w2,
    fetchAccounts w1 = (Ok data, w2)
    /\ exists account',
         last_with acc_account_id "acc-2" accounts = Some account'
         /\ lookup a_account_id "acc-2" data
            = Some (account_row "user-1" sample_item account').
Proof.
  intros w accounts w1.
  destruct (@fetch_accounts_after_store Script accounts sample_item w w1
              "Successfully stored accounts" "user-1"
              eq_refl eq_refl eq_refl) as (data & w2 & Hrun & H).
  exists data, w2. split; [exact Hrun|].
  apply (H (sample_account "acc-2")). simpl. right. now left.
Defined.

(** ** The loop, further *)

Section MoreLoopFacts.

Context {Agg : Type} {plaidClient : PlaidApi Agg}.

(** X21.  Whatever the aggregator answers, the requests of the loop form a
    chain: all carry the access token given, the first the cursor the loop
    is entered with, each next one the [next_cursor] of the page before;
    and no request follows a fetch that throws or a page with
    [has_more = false]. *)
Theorem loop_requests_are_chained (tok : string) (fuel : nat) :
  forall (v : SyncVars) (w w' : World Agg) (r : Result SyncVars),
    v_hasMore v = true ->
    sync_loop fuel tok v w = (r, w') ->
    exists evs,
      trace w' = trace w ++ evs
      /\ chained tok (v_cursor v) evs
      /\ List.length evs <= fuel.
Proof.
  induction fuel as [|fuel IH]; intros v w w' r Hm H; simpl in H;
    rewrite Hm in H.
  - inversion H; subst. exists []. rewrite app_nil_r. simpl. auto.
  - unfold bind, call_transactionsSync in H.
    destruct (transactionsSync (plaid w)
                {| access_token := tok; cursor := v_cursor v |})
      as [[e | p] a] eqn:Hf.
    + inversion H; subst; simpl. eexists. split; [reflexivity|].
      simpl. split; [auto | lia].
    + destruct (has_more p) eqn:Hp.
      * apply IH in H; [|reflexivity]. simpl in H.
        destruct H as (evs & Ht & Hc & Hl).
        exists (EvTransactionsSync
                  {| access_token := tok; cursor := v_cursor v |} (inr p)
                :: evs).
        rewrite Ht, <- app_assoc. split; [reflexivity|]. simpl.
        rewrite Hp. split; [auto | lia].
      * rewrite sync_loop_done in H by reflexivity. inversion H; subst; simpl.
        eexists. split; [reflexivity|]. simpl. rewrite Hp.
        split; [auto | lia].
Qed.

End MoreLoopFacts.

Lemma loop_requests_are_chained_witness :
  let w := sample_world [] [inr page1; inr page2] [] in
  let run := sync_loop 5 "access-sandbox" (initial_vars None) w in
  exists evs,
    trace (snd run) = trace w ++ evs
    /\ chained "access-sandbox" None evs
    /\ List.length evs <= 5.
Proof.
  intros w run.
  apply (@loop_requests_are_chained Script scripted "access-sandbox" 5
           (initial_vars None) w (snd run) (fst run)); reflexivity.
Defined.
